(** * TFSP: text-to-frequency streaming pipeline

    A shallow embedding of the core of the repository:
    - [src/tfsp/encoders/base.py], [dtmf.py], [fsk.py], [ultrasonic.py]:
      the three frequency encoders;
    - [src/tfsp/buffer.py]: the token buffer and its flush policy;
    - [src/tfsp/audio/tone.py]: the tone synthesizer;
    - the streaming loop of [main.py] and the theoretical playback time
      of [src/tfsp/benchmark.py], which use them.

    Conventions of the embedding.
    - A Python [str] is the list of its Unicode code points; [ord] reads one.
    - A Python [float] (binary64) is a primitive float, so the encoders
      compute the very values the interpreter computes.
    - A call that may raise returns [result]; a method that assigns to
      [self] threads the object through a small state-and-error monad.
    - NumPy sample arrays are lists of real numbers: the rounding of
      float32 arithmetic is abstracted away in the synthesizer. *)

From Stdlib Require Import ZArith NArith List Ascii Bool Lia.
From Stdlib Require Import Floats Uint63.
From Stdlib Require Import Reals Lra.
Import ListNotations.

Set Implicit Arguments.

(* ================================================================== *)
(** * Python prelude *)
(* ================================================================== *)

Module Py.

(** A one-character [str] is its code point; [text] is a [str]. *)
Definition char := N.
Definition text := list char.

Definition ord (c : char) : Z := Z.of_N c.

(** Code points of a well-formed [str]. *)
Definition valid_char (c : char) : Prop := (c < 0x110000)%N.

(** The exceptions the modelled code can raise: a failed dictionary
    lookup, NumPy's refusal of a negative sample count, and whatever an
    injected callback raises. *)
Inductive exn : Set :=
| KeyError
| ValueError
| HandlerError.

Inductive result (A : Type) : Type :=
| Ok (a : A)
| Raise (e : exn).

Arguments Ok {A} a.
Arguments Raise {A} e.

Definition bind {A B} (r : result A) (k : A -> result B) : result B :=
  match r with
  | Ok a => k a
  | Raise e => Raise e
  end.

Definition raises {A} (r : result A) : bool :=
  match r with
  | Ok _ => false
  | Raise _ => true
  end.

(** [for x in xs: body], the loop state threaded through. *)
Fixpoint for_each {A S} (xs : list A) (body : S -> A -> result S) (s : S)
  : result S :=
  match xs with
  | [] => Ok s
  | x :: xs' => bind (body s x) (for_each xs' body)
  end.

(** [[f(x) for x in xs]]. *)
Fixpoint comprehension {A B} (f : A -> result B) (xs : list A)
  : result (list B) :=
  match xs with
  | [] => Ok []
  | x :: xs' =>
      bind (f x) (fun y => bind (comprehension f xs') (fun ys => Ok (y :: ys)))
  end.

(** [d[k]] on a dictionary keyed by one-character strings. *)
Fixpoint dict_get {V} (d : list (ascii * V)) (k : ascii) : result V :=
  match d with
  | [] => Raise KeyError
  | (k', v) :: d' => if Ascii.eqb k' k then Ok v else dict_get d' k
  end.

(** [float(n)] for an [int]; exact for [0 <= n < 2^53]. *)
Definition float_of_int (n : Z) : float := PrimFloat.of_uint63 (Uint63.of_Z n).

(** [a / b] on two [int]s: true division. Both operands are exactly
    representable in the modelled code, so the quotient of their floats
    is the correctly rounded quotient Python returns. *)
Definition truediv (a b : Z) : float :=
  PrimFloat.div (float_of_int a) (float_of_int b).

(** A call of a method whose body assigns nothing to [self]: the object
    comes back as it went in, next to what the method returns. *)
Definition call_reading {S A} (method : S -> A) (self : S) : S * A :=
  (self, method self).

(** ** Format specification [x] and [02x] *)

(** The value of a sequence of hex digit values, most significant
    first, and what a digit value is. *)
Definition value_of (ds : list Z) : Z :=
  fold_left (fun v d => (16 * v + d)%Z) ds 0%Z.

Definition is_digit (d : Z) : Prop := (0 <= d < 16)%Z.


Definition hex_alphabet : list ascii :=
  [ "0"; "1"; "2"; "3"; "4"; "5"; "6"; "7";
    "8"; "9"; "a"; "b"; "c"; "d"; "e"; "f" ]%char.

Definition hex_digit (d : Z) : ascii := nth (Z.to_nat d) hex_alphabet "0"%char.

(** Digits of a non-negative [n], most significant first, in front of
    [acc]. The fuel bounds the number of digits. *)
Fixpoint hex_digits (fuel : nat) (n : Z) (acc : list ascii) : list ascii :=
  match fuel with
  | O => acc
  | S fuel' =>
      let acc' := hex_digit (n mod 16) :: acc in
      if (n / 16 =? 0)%Z then acc' else hex_digits fuel' (n / 16) acc'
  end.

(** [format(n, "x")] for [0 <= n]: one digit per started group of four
    bits, so [S (log2 n)] steps always suffice. *)
Definition format_x (n : Z) : list ascii :=
  hex_digits (S (Z.to_nat (Z.log2 n))) n [].

(** [f"{n:02x}"]: the sign, then the digits zero-padded to a total
    width of at least two; longer representations are kept whole. *)
Definition format_02x (n : Z) : list ascii :=
  if (n <? 0)%Z then "-"%char :: format_x (- n)
  else
    let ds := format_x n in
    repeat "0"%char (2 - length ds) ++ ds.

End Py.

Import Py.

Declare Scope py_scope.
Delimit Scope py_scope with py.
Notation "x <- c ;; k" := (Py.bind c (fun x => k))
  (at level 61, c at next level, right associativity) : py_scope.

(* ================================================================== *)
(** * encoders/base.py *)
(* ================================================================== *)

Module Base.

(** A single tone or chord to play. *)
Record ToneEvent : Set := {
  frequencies : list float;   (* Hz (1 for FSK, 2 for DTMF) *)
  duration_ms : Z             (* how long to play *)
}.

(** A sequence of tones representing encoded data. *)
Record EncodedFrame : Set := {
  tones : list ToneEvent;
  original_text : text
}.

End Base.

Import Base.

(* ================================================================== *)
(** * encoders/dtmf.py *)
(* ================================================================== *)

Module DTMF.

Local Open Scope char_scope.
Local Open Scope Z_scope.
Local Open Scope py_scope.

Definition LOW_FREQUENCIES : list (ascii * Z) :=
  [ ("1", 697); ("2", 697); ("3", 697); ("A", 697);
    ("4", 770); ("5", 770); ("6", 770); ("B", 770);
    ("7", 852); ("8", 852); ("9", 852); ("C", 852);
    ("*", 941); ("0", 941); ("#", 941); ("D", 941) ].

Definition HIGH_FREQUENCIES : list (ascii * Z) :=
  [ ("1", 1209); ("4", 1209); ("7", 1209); ("*", 1209);
    ("2", 1336); ("5", 1336); ("8", 1336); ("0", 1336);
    ("3", 1477); ("6", 1477); ("9", 1477); ("#", 1477);
    ("A", 1633); ("B", 1633); ("C", 1633); ("D", 1633) ].

(** Hex digits to DTMF symbols: 0-9 map directly, A-F map to A-D, *, #. *)
Definition HEX_TO_DTMF : list (ascii * ascii) :=
  [ ("0", "0"); ("1", "1"); ("2", "2"); ("3", "3"); ("4", "4");
    ("5", "5"); ("6", "6"); ("7", "7"); ("8", "8"); ("9", "9");
    ("a", "A"); ("b", "B"); ("c", "C"); ("d", "D"); ("e", "*"); ("f", "#");
    ("A", "A"); ("B", "B"); ("C", "C"); ("D", "D"); ("E", "*"); ("F", "#") ].

Record DTMFEncoder : Set := { tone_duration_ms : Z }.

(** [DTMFEncoder(tone_duration_ms=100)]: the argument is stored as given. *)
Definition __init__ (tone_duration_ms : option Z) : result DTMFEncoder :=
  Ok {| tone_duration_ms :=
          match tone_duration_ms with Some d => d | None => 100 end |}.

Definition _char_to_dtmf_symbols (self : DTMFEncoder) (char : Py.char)
  : result (list ascii) :=
  let ascii_code := ord char in
  let hex_str := format_02x ascii_code in
  comprehension (fun digit => dict_get HEX_TO_DTMF digit) hex_str.

Definition _symbol_to_frequencies (self : DTMFEncoder) (symbol : ascii)
  : result (list float) :=
  low <- dict_get LOW_FREQUENCIES symbol ;;
  high <- dict_get HIGH_FREQUENCIES symbol ;;
  Ok [float_of_int low; float_of_int high].

Definition encode (self : DTMFEncoder) (text : Py.text) : result EncodedFrame :=
  tones <-
    for_each text
      (fun tones char =>
         symbols <- _char_to_dtmf_symbols self char ;;
         for_each symbols
           (fun tones symbol =>
              frequencies <- _symbol_to_frequencies self symbol ;;
              Ok (tones ++ [ {| frequencies := frequencies;
                                duration_ms := tone_duration_ms self |} ]))
           tones)
      [] ;;
  Ok {| tones := tones; original_text := text |}.

End DTMF.

(* ================================================================== *)
(** * encoders/fsk.py *)
(* ================================================================== *)

Module FSK.

Definition MIN_FREQUENCY : float := 400.
Definition MAX_FREQUENCY : float := 2000.
Definition FREQUENCY_RANGE : float := (MAX_FREQUENCY - MIN_FREQUENCY)%float.

Record FSKEncoder : Set := { tone_duration_ms : Z }.

(** [FSKEncoder(tone_duration_ms=100)]. *)
Definition __init__ (tone_duration_ms : option Z) : result FSKEncoder :=
  Ok {| tone_duration_ms :=
          match tone_duration_ms with Some d => d | None => 100%Z end |}.

Definition _char_to_frequency (self : FSKEncoder) (char : Py.char) : float :=
  let ascii_code := ord char in
  (* clamp to 0-255 range for safety *)
  let ascii_code := Z.max 0 (Z.min 255 ascii_code) in
  let frequency :=
    (MIN_FREQUENCY + truediv ascii_code 255 * FREQUENCY_RANGE)%float in
  frequency.

Definition encode (self : FSKEncoder) (text : Py.text) : result EncodedFrame :=
  (tones <-
     for_each text
       (fun tones char =>
          let frequency := _char_to_frequency self char in
          Ok (tones ++ [ {| frequencies := [frequency];
                            duration_ms := tone_duration_ms self |} ]))
       [] ;;
   Ok {| tones := tones; original_text := text |})%py.

End FSK.

(* ================================================================== *)
(** * encoders/ultrasonic.py *)
(* ================================================================== *)

Module Ultrasonic.

Definition MIN_FREQUENCY : float := 15000.
Definition MAX_FREQUENCY : float := 20000.
Definition FREQUENCY_RANGE : float := (MAX_FREQUENCY - MIN_FREQUENCY)%float.

Definition DEFAULT_TONE_DURATION_MS : Z := 5.

Record UltrasonicEncoder : Set := { tone_duration_ms : Z }.

(** [UltrasonicEncoder(tone_duration_ms=DEFAULT_TONE_DURATION_MS)]. *)
Definition __init__ (tone_duration_ms : option Z) : result UltrasonicEncoder :=
  Ok {| tone_duration_ms :=
          match tone_duration_ms with
          | Some d => d
          | None => DEFAULT_TONE_DURATION_MS
          end |}.

Definition _char_to_frequency (self : UltrasonicEncoder) (char : Py.char)
  : float :=
  let ascii_code := ord char in
  let ascii_code := Z.max 0 (Z.min 255 ascii_code) in
  let frequency :=
    (MIN_FREQUENCY + truediv ascii_code 255 * FREQUENCY_RANGE)%float in
  frequency.

Definition encode (self : UltrasonicEncoder) (text : Py.text)
  : result EncodedFrame :=
  (tones <-
     for_each text
       (fun tones char =>
          let frequency := _char_to_frequency self char in
          Ok (tones ++ [ {| frequencies := [frequency];
                            duration_ms := tone_duration_ms self |} ]))
       [] ;;
   Ok {| tones := tones; original_text := text |})%py.

End Ultrasonic.

(** The abstract [BaseEncoder]: one capability, [encode]. *)
Class BaseEncoder (E : Type) : Type := {
  encode : E -> text -> result EncodedFrame
}.

#[export] Instance DTMF_BaseEncoder : BaseEncoder DTMF.DTMFEncoder :=
  {| encode := DTMF.encode |}.
#[export] Instance FSK_BaseEncoder : BaseEncoder FSK.FSKEncoder :=
  {| encode := FSK.encode |}.
#[export] Instance Ultrasonic_BaseEncoder
  : BaseEncoder Ultrasonic.UltrasonicEncoder :=
  {| encode := Ultrasonic.encode |}.

(* ================================================================== *)
(** * buffer.py *)
(* ================================================================== *)

Module Buffer.

Local Open Scope Z_scope.

(** The injected callback as the buffer observes it: given the texts of
    its earlier calls and the text of this one, it returns or raises.
    It is assumed not to reach back into the buffer that calls it. *)
Definition handler : Type := list text -> text -> result unit.

Record TokenBuffer : Type := {
  buffer_size : Z;
  on_flush : handler;
  _buffer : text;
  _token_count : Z
}.

(** The object together with the record of what its callback has been
    called with so far, oldest call first. *)
Record state : Type := {
  self : TokenBuffer;
  calls : list text
}.

(** Statements of a method body: they may assign to [self], call the
    callback, and raise; what was assigned before a raise stays. *)
Definition M (A : Type) : Type := state -> state * result A.

Definition ret {A} (a : A) : M A := fun st => (st, Ok a).

Definition bind {A B} (m : M A) (k : A -> M B) : M B :=
  fun st =>
    match m st with
    | (st', Ok a) => k a st'
    | (st', Raise e) => (st', Raise e)
    end.

Definition read {A} (field : TokenBuffer -> A) : M A :=
  fun st => (st, Ok (field (self st))).

Definition assign_buffer (v : text) : M unit :=
  fun st =>
    ({| self := {| buffer_size := buffer_size (self st);
                   on_flush := on_flush (self st);
                   _buffer := v;
                   _token_count := _token_count (self st) |};
        calls := calls st |}, Ok tt).

Definition assign_token_count (v : Z) : M unit :=
  fun st =>
    ({| self := {| buffer_size := buffer_size (self st);
                   on_flush := on_flush (self st);
                   _buffer := _buffer (self st);
                   _token_count := v |};
        calls := calls st |}, Ok tt).

(** [await self.on_flush(text)]: the call is recorded, then the callback
    decides how it ends. *)
Definition await_on_flush (text : Py.text) : M unit :=
  fun st =>
    ({| self := self st; calls := calls st ++ [text] |},
     on_flush (self st) (calls st) text).

End Buffer.

Declare Scope buffer_scope.
Delimit Scope buffer_scope with buffer.
Notation "x <- c ;; k" := (Buffer.bind c (fun x => k))
  (at level 61, c at next level, right associativity) : buffer_scope.
Notation "c ;;; k" := (Buffer.bind c (fun _ => k))
  (at level 61, right associativity) : buffer_scope.

Module TokenBuffer.

Import Buffer.
Local Open Scope Z_scope.
Local Open Scope buffer_scope.

Definition __init__ (buffer_size : Z) (on_flush : handler)
  : result Buffer.TokenBuffer :=
  Ok {| buffer_size := buffer_size;
        on_flush := on_flush;
        _buffer := [];
        _token_count := 0 |}.

(** Truth value of a [str]: non-empty. *)
Definition truthy (s : text) : bool :=
  match s with
  | [] => false
  | _ :: _ => true
  end.

(** Force flush the buffer. *)
Definition flush : M unit :=
  b <- read _buffer ;;
  if truthy b then
    await_on_flush b ;;;
    assign_buffer [] ;;;
    assign_token_count 0
  else ret tt.

(** Add text to buffer, flush if threshold reached. *)
Definition add (text : Py.text) : M unit :=
  b <- read _buffer ;;
  assign_buffer (b ++ text) ;;;
  c <- read _token_count ;;
  assign_token_count (c + 1) ;;;
  c <- read _token_count ;;
  n <- read buffer_size ;;
  if c >=? n then flush else ret tt.

(** What a caller does with a buffer. *)
Inductive op : Type :=
| Add (fragment : text)
| Flush.

Definition perform (o : op) : M unit :=
  match o with
  | Add fragment => add fragment
  | Flush => flush
  end.

(** A caller performing operations in sequence; a raise ends the run. *)
Fixpoint run (ops : list op) : M unit :=
  match ops with
  | [] => ret tt
  | o :: ops' => perform o ;;; run ops'
  end.

(** The state right after construction. *)
Definition fresh (buffer_size : Z) (on_flush : handler) : state :=
  {| self := {| buffer_size := buffer_size;
                on_flush := on_flush;
                _buffer := [];
                _token_count := 0 |};
     calls := [] |}.

End TokenBuffer.

(* ================================================================== *)
(** * audio/tone.py *)
(* ================================================================== *)

Module Tone.

Local Open Scope R_scope.
Local Open Scope py_scope.

(** [np.linspace(start, stop, num)]: [num] evenly spaced values over the
    closed interval, both ends included; a negative [num] is refused. *)
Definition linspace (start stop : R) (num : Z) : result (list R) :=
  if (num <? 0)%Z then Raise ValueError
  else
    let n := Z.to_nat num in
    let div := (n - 1)%nat in
    let delta := stop - start in
    let step := if (0 <? div)%nat then delta / INR div else delta in
    Ok (map (fun i => start + INR i * step) (seq 0 n)).

Definition zeros_like (a : list R) : list R := map (fun _ => 0) a.

(** Element-wise [a + b] and [a * b] on arrays of one length. *)
Definition vadd (a b : list R) : list R :=
  map (fun p => fst p + snd p) (combine a b).

Definition vmul (a b : list R) : list R :=
  map (fun p => fst p * snd p) (combine a b).

(** [int(sample_rate * duration_ms / 1000)]: the quotient, truncated
    towards zero. *)
Definition num_samples_of (duration_ms sample_rate : Z) : Z :=
  Z.quot (sample_rate * duration_ms) 1000.

(** [int(sample_rate * 0.01)]. The binary64 nearest to 0.01 lies just
    above it, so for sample rates below 10^13 the truncated product is
    the truncated hundredth. *)
Definition fade_samples_of (sample_rate : Z) : Z :=
  Z.quot sample_rate 100.

(** The first half of [generate_tone]: the time grid, the sum of the
    sines and the normalisation by the number of frequencies. *)
Definition summed_signal (frequencies : list R) (t : list R) : list R :=
  let signal := zeros_like t in
  let signal :=
    fold_left
      (fun signal freq =>
         vadd signal (map (fun ti => sin (2 * PI * freq * ti)) t))
      frequencies signal in
  if (0 <? length frequencies)%nat
  then map (fun s => s / INR (length frequencies)) signal
  else signal.

(** The second half: the 10 ms fade in and out. *)
Definition apply_envelope (sample_rate : Z) (signal : list R)
  : result (list R) :=
  let fade_samples := fade_samples_of sample_rate in
  if ((0 <? fade_samples)%Z
      && (2 * fade_samples <? Z.of_nat (length signal))%Z)%bool
  then
    fade_in <- linspace 0 1 fade_samples ;;
    fade_out <- linspace 1 0 fade_samples ;;
    let k := Z.to_nat fade_samples in
    (* signal[:fade_samples] *= fade_in *)
    let signal := vmul (firstn k signal) fade_in ++ skipn k signal in
    (* signal[-fade_samples:] *= fade_out *)
    let m := (length signal - k)%nat in
    let signal := firstn m signal ++ vmul (skipn m signal) fade_out in
    Ok signal
  else Ok signal.

Definition unfaded_tone (frequencies : list R) (duration_ms : Z)
  (sample_rate : Z) : result (list R) :=
  let num_samples := num_samples_of duration_ms sample_rate in
  t <- linspace 0 (IZR duration_ms / 1000) num_samples ;;
  Ok (summed_signal frequencies t).

(** [generate_tone(frequencies, duration_ms, sample_rate=44100)]. *)
Definition generate_tone (frequencies : list R) (duration_ms : Z)
  (sample_rate : option Z) : result (list R) :=
  let sample_rate :=
    match sample_rate with Some r => r | None => 44100%Z end in
  signal <- unfaded_tone frequencies duration_ms sample_rate ;;
  apply_envelope sample_rate signal.

End Tone.

(* ================================================================== *)
(** * Reference notions the properties are stated against *)
(* ================================================================== *)

(** The keypad documented at the head of [dtmf.py]: rows are the low
    frequencies, columns the high ones. *)
Module Keypad.

Local Open Scope char_scope.
Local Open Scope Z_scope.

Definition rows : list Z := [697; 770; 852; 941].
Definition columns : list Z := [1209; 1336; 1477; 1633].

Definition layout : list (list ascii) :=
  [ ["1"; "2"; "3"; "A"];
    ["4"; "5"; "6"; "B"];
    ["7"; "8"; "9"; "C"];
    ["*"; "0"; "#"; "D"] ].

(** The sixteen symbols in the order of the hex digit they stand for:
    0-9 directly, then A-D, [*] and [#] for a-f. *)
Definition symbols : list ascii :=
  [ "0"; "1"; "2"; "3"; "4"; "5"; "6"; "7";
    "8"; "9"; "A"; "B"; "C"; "D"; "*"; "#" ].

Definition symbol_of_digit (d : Z) : ascii := nth (Z.to_nat d) symbols "0".

Fixpoint index_of (s : ascii) (l : list ascii) : Z :=
  match l with
  | [] => 0
  | x :: l' => if Ascii.eqb x s then 0 else 1 + index_of s l'
  end.

Definition digit_of_symbol (s : ascii) : Z := index_of s symbols.

(** The hex number a symbol sequence spells, most significant first. *)
Definition spelled (syms : list ascii) : Z :=
  fold_left (fun v s => 16 * v + digit_of_symbol s) syms 0.

(** The chord at row [i], column [j]. *)
Definition chord (i j : nat) : list float :=
  [float_of_int (nth i rows 0); float_of_int (nth j columns 0)].

Definition key (i j : nat) : ascii := nth j (nth i layout []) "0".

End Keypad.

Module DTMFFacts.

Import DTMF.

(** The tables read as total functions; the default is never reached
    on the keys the encoder looks up. *)
Definition get_or {V} (d : list (ascii * V)) (k : ascii) (default : V) : V :=
  match dict_get d k with
  | Ok v => v
  | Raise _ => default
  end.

Definition to_symbol (digit : ascii) : ascii :=
  get_or HEX_TO_DTMF digit "0"%char.

Definition tone_for (self : DTMFEncoder) (symbol : ascii) : ToneEvent :=
  {| frequencies := [ float_of_int (get_or LOW_FREQUENCIES symbol 0%Z);
                      float_of_int (get_or HIGH_FREQUENCIES symbol 0%Z) ];
     duration_ms := tone_duration_ms self |}.

(** The symbols of a character: those of the digits of its code. *)
Definition symbols_of (c : char) : list ascii :=
  map to_symbol (format_02x (ord c)).

(** The tone of the hex digit of value [d]. *)
Definition tone_of_digit (self : DTMFEncoder) (d : Z) : ToneEvent :=
  tone_for self (Keypad.symbol_of_digit d).

(** The digit values of a character's code as the encoder spells it:
    all of them, most significant first, at least two, and exactly the
    high and the low nibble up to code point 255. *)
Definition digits_spelled (c : char) (ds : list Z) : Prop :=
  Forall is_digit ds /\ value_of ds = ord c /\ (2 <= length ds)%nat
  /\ (ord c <= 255 -> ds = [ord c / 16; ord c mod 16])%Z.

Definition low_set : list float := map float_of_int Keypad.rows.
Definition high_set : list float := map float_of_int Keypad.columns.

(** A chord of the dual-tone scheme: a low then a high frequency. *)
Definition dual_tone (ev : ToneEvent) : Prop :=
  exists lo hi,
    frequencies ev = [lo; hi] /\ In lo low_set /\ In hi high_set.

End DTMFFacts.

Module TokenBufferFacts.

Import Buffer TokenBuffer.
Local Open Scope Z_scope.

(** The state [add] reaches before it decides whether to flush. *)
Definition appended (fragment : text) (st : state) : state :=
  {| self := {| buffer_size := buffer_size (self st);
                on_flush := on_flush (self st);
                _buffer := _buffer (self st) ++ fragment;
                _token_count := _token_count (self st) + 1 |};
     calls := calls st |}.

(** The state right after the callback has been called with the text. *)
Definition called (st : state) : state :=
  {| self := self st; calls := calls st ++ [_buffer (self st)] |}.

(** The state a flush of a non-empty text ends in when the callback
    returns. *)
Definition cleared (st : state) : state :=
  {| self := {| buffer_size := buffer_size (self st);
                on_flush := on_flush (self st);
                _buffer := [];
                _token_count := 0 |};
     calls := calls st ++ [_buffer (self st)] |}.

(** The fragments a caller adds. *)
Definition is_nonempty_add (o : op) : Prop :=
  match o with
  | Add fragment => fragment <> []
  | Flush => True
  end.

(** Two callbacks to run examples with. *)
Definition accepting : handler := fun _ _ => Ok tt.
Definition refusing : handler := fun _ _ => Raise HandlerError.

End TokenBufferFacts.

Module ToneFacts.

Local Open Scope R_scope.

(** The sum over the given frequencies of [sin(2 pi f t)]. *)
Definition sine_sum (frequencies : list R) (t : R) : R :=
  fold_left (fun acc f => acc + sin (2 * PI * f * t)) frequencies 0.

(** Instant [i] of [n] evenly spaced over [0, duration_ms / 1000], both
    ends included. *)
Definition sample_time (duration_ms : Z) (n i : nat) : R :=
  if (n <=? 1)%nat then 0
  else INR i * (IZR duration_ms / 1000 / INR (n - 1)).

(** The linear ramps of a fade of [k] samples: from 0 up to 1 and from
    1 down to 0. A ramp of a single sample is its starting value. *)
Definition fade_in_gain (k i : nat) : R :=
  if (k <=? 1)%nat then 0 else INR i / INR (k - 1).

Definition fade_out_gain (k i : nat) : R :=
  if (k <=? 1)%nat then 1 else 1 - INR i / INR (k - 1).

(** The gain of sample [i] of [n] under a fade of [k] samples at each
    end. *)
Definition envelope_gain (n k i : nat) : R :=
  if (i <? k)%nat then fade_in_gain k i
  else if (i <? n - k)%nat then 1
  else fade_out_gain k (i - (n - k)).

(** Whether a tone of [n] samples is faded at all. *)
Definition faded (sample_rate : Z) (n : nat) : bool :=
  ((0 <? Tone.fade_samples_of sample_rate)%Z
   && (2 * Tone.fade_samples_of sample_rate <? Z.of_nat n)%Z)%bool.

End ToneFacts.

(** The two truncations of [tone.py] as the interpreter computes them
    in binary64, to compare the integer model against. *)
Module Binary64.

(** The binary64 nearest to 0.01, the literal of [tone.py]. *)
Definition hundredth : float := 0x1.47ae147ae147bp-7%float.

(** [sample_rate * 0.01] and [sample_rate * duration_ms / 1000]. *)
Definition fade_product (sample_rate : Z) : float :=
  (float_of_int sample_rate * hundredth)%float.

Definition samples_quotient (duration_ms sample_rate : Z) : float :=
  (float_of_int (sample_rate * duration_ms) / 1000)%float.

(** [int(x) == z] for [0 <= z]: [z <= x < z + 1]. *)
Definition truncates_to (x : float) (z : Z) : bool :=
  ((float_of_int z <=? x)%float && (x <? float_of_int (z + 1))%float)%bool.

Fixpoint all_from (p : Z -> bool) (start : Z) (count : nat) : bool :=
  match count with
  | O => true
  | S k => p start && all_from p (start + 1)%Z k
  end.

Definition common_rates : list Z :=
  [8000; 11025; 16000; 22050; 44100; 48000]%Z.

End Binary64.

(** Python's [round(p / q)] for [q > 0]: nearest integer, ties to even. *)
Definition py_round (p q : Z) : Z :=
  let f := (p / q)%Z in
  let r := (2 * (p mod q))%Z in
  if (r <? q)%Z then f
  else if (q <? r)%Z then (f + 1)%Z
  else if Z.even f then f else (f + 1)%Z.


(* ================================================================== *)
(** * The rest of the modelled code *)
(* ================================================================== *)

(** ** encoders/ultrasonic.py: the throughput property *)

Module UltrasonicSpeed.

(** What [theoretical_speed_bps] ends in: a float, or the
    [ZeroDivisionError] of [1000 / 0]. *)
Inductive speed : Set :=
| Bps (value : float)
| ZeroDivisionError.

(** [float(n)] for any [int], negative ones included: the nearest
    binary64, ties to even. (Beyond the range of binary64 Python raises
    [OverflowError] where this gives an infinity.) *)
Definition int_to_float (n : Z) : float :=
  SF2Prim (binary_normalize prec emax n 0 false).

(** [1000 / self.tone_duration_ms] is the true division of two [int]s,
    the correctly rounded quotient; up to [2^53] in absolute value both
    operands are exact floats and it is the quotient of the floats. *)
Definition theoretical_speed_bps (self : Ultrasonic.UltrasonicEncoder)
  : speed :=
  if (Ultrasonic.tone_duration_ms self =? 0)%Z then ZeroDivisionError
  else
    let symbols_per_sec :=
      (int_to_float 1000
       / int_to_float (Ultrasonic.tone_duration_ms self))%float in
    let bits_per_symbol := 8%float in
    Bps (symbols_per_sec * bits_per_symbol)%float.

End UltrasonicSpeed.

(** ** benchmark.py: the theoretical playback time *)

Module Benchmark.

(** [sum(tone.duration_ms for tone in frame.tones)], the branch of
    [benchmark_encoder] that does not play. *)
Definition playback_time (tones : list ToneEvent) : Z :=
  fold_left (fun acc tone => (acc + duration_ms tone)%Z) tones 0%Z.

End Benchmark.

(** ** main.py: the streaming loop of [run_stream] *)

Module Main.

Import Buffer TokenBuffer.

(** [async for chunk in provider.stream(...): await buffer.add(chunk)],
    then [await buffer.flush()], on the chunks the provider yields. *)
Definition stream (chunks : list text) : M unit :=
  run (map Add chunks ++ [Flush]).

End Main.

(** ** Reading a dual-tone frame back *)

Module DTMFDecode.

Local Open Scope Z_scope.

(** The place of a frequency in a band. *)
Fixpoint place (f : float) (band : list float) : option nat :=
  match band with
  | [] => None
  | g :: band' =>
      if PrimFloat.eqb g f then Some O
      else match place f band' with
           | Some i => Some (S i)
           | None => None
           end
  end.

(** The hex digit a chord stands for: the key at its row and column. *)
Definition digit_of_chord (chord : list float) : option Z :=
  match chord with
  | [lo; hi] =>
      match place lo DTMFFacts.low_set, place hi DTMFFacts.high_set with
      | Some i, Some j => Some (Keypad.digit_of_symbol (Keypad.key i j))
      | _, _ => None
      end
  | _ => None
  end.

(** Two chords per character, high nibble first. *)
Fixpoint decode (tones : list ToneEvent) : option text :=
  match tones with
  | [] => Some []
  | hi :: lo :: rest =>
      match digit_of_chord (frequencies hi),
            digit_of_chord (frequencies lo),
            decode rest with
      | Some h, Some l, Some t => Some (Z.to_N (16 * h + l) :: t)
      | _, _, _ => None
      end
  | [_] => None
  end.

End DTMFDecode.

(** ** Counting and slicing, for the properties of the buffer *)

Module Counting.

Import Buffer TokenBuffer.

(** The fragments a sequence of operations adds, in order. *)
Fixpoint added (ops : list op) : list text :=
  match ops with
  | [] => []
  | Add fragment :: ops' => fragment :: added ops'
  | Flush :: ops' => added ops'
  end.

(** The non-empty chunks of a stream. *)
Definition non_empty (chunks : list text) : list text :=
  filter truthy chunks.

End Counting.
(* ================================================================== *)
(** * Properties of the prelude *)
(* ================================================================== *)

Unset Implicit Arguments.

Section PreludeFacts.

Lemma bind_Ok {A B} (r : result A) (k : A -> result B) a :
  r = Ok a -> Py.bind r k = k a.
Proof. intros ->. reflexivity. Qed.

Lemma comprehension_map {A B} (f : A -> result B) (g : A -> B) xs :
  Forall (fun x => f x = Ok (g x)) xs ->
  comprehension f xs = Ok (map g xs).
Proof.
  induction 1 as [|x xs Hx _ IH]; simpl.
  - reflexivity.
  - rewrite Hx. simpl. rewrite IH. reflexivity.
Qed.

Lemma for_each_app {A S} (xs ys : list A) (body : S -> A -> result S) s :
  for_each (xs ++ ys) body s = Py.bind (for_each xs body s) (for_each ys body).
Proof.
  revert s. induction xs as [|x xs IH]; intros s; simpl.
  - reflexivity.
  - destruct (body s x) as [s'|e]; simpl; [apply IH | reflexivity].
Qed.

(** A loop whose body appends one element per item builds a [map]. *)
Lemma for_each_append {A B C} (f : A -> result B) (h : B -> C) (g : A -> C) xs :
  Forall (fun x => exists y, f x = Ok y /\ h y = g x) xs ->
  forall acc,
    for_each xs (fun acc x => Py.bind (f x) (fun y => Ok (acc ++ [h y]))) acc
    = Ok (acc ++ map g xs).
Proof.
  induction 1 as [|x xs (y & Hx & Hy) _ IH]; intros acc; simpl.
  - rewrite app_nil_r. reflexivity.
  - rewrite Hx. simpl. rewrite IH, <- app_assoc, Hy. reflexivity.
Qed.

Lemma for_each_append_pure {A C} (g : A -> C) xs : forall acc,
  for_each xs (fun acc x => Ok (acc ++ [g x])) acc = Ok (acc ++ map g xs).
Proof.
  induction xs as [|x xs IH]; intros acc; simpl.
  - rewrite app_nil_r. reflexivity.
  - rewrite IH, <- app_assoc. reflexivity.
Qed.

End PreludeFacts.

(* ================================================================== *)
(** * Hexadecimal formatting *)
(* ================================================================== *)

Section HexFacts.

Local Open Scope Z_scope.

Lemma value_of_snoc ds d : value_of (ds ++ [d]) = 16 * value_of ds + d.
Proof. unfold value_of. rewrite fold_left_app. reflexivity. Qed.

Lemma value_of_bound ds :
  Forall is_digit ds -> 0 <= value_of ds < 16 ^ Z.of_nat (length ds).
Proof.
  induction ds as [|d ds IH] using rev_ind; intros H.
  - simpl. unfold value_of. simpl. lia.
  - apply Forall_app in H as [Hds Hd]. inversion Hd as [|? ? Hd0 _]; subst.
    specialize (IH Hds). rewrite value_of_snoc, length_app.
    replace (Z.of_nat (length ds + length [d]))
      with (Z.succ (Z.of_nat (length ds))) by (simpl; lia).
    rewrite Z.pow_succ_r by lia. unfold is_digit in Hd0. lia.
Qed.

(** [hex_digits] with enough fuel writes the digits of [n], most
    significant first, in front of the accumulator. *)
Lemma hex_digits_spec fuel : forall n acc,
  0 <= n < 16 ^ Z.of_nat (S fuel) ->
  exists ds,
    hex_digits (S fuel) n acc = map hex_digit ds ++ acc
    /\ Forall is_digit ds /\ value_of ds = n /\ (1 <= length ds)%nat.
Proof.
  induction fuel as [|fuel IH]; intros n acc Hn.
  - change (16 ^ Z.of_nat 1) with 16 in Hn.
    exists [n]. cbn [hex_digits].
    rewrite Z.div_small, Z.mod_small by lia. simpl.
    repeat split; auto; repeat constructor; unfold is_digit; lia.
  - change (hex_digits (S (S fuel)) n acc)
      with (if n / 16 =? 0 then hex_digit (n mod 16) :: acc
            else hex_digits (S fuel) (n / 16) (hex_digit (n mod 16) :: acc)).
    destruct (n / 16 =? 0) eqn:E.
    + apply Z.eqb_eq in E.
      assert (n < 16) by (apply Z.div_small_iff in E; lia).
      exists [n]. rewrite Z.mod_small by lia. simpl.
      repeat split; auto; repeat constructor; unfold is_digit; lia.
    + apply Z.eqb_neq in E.
      assert (Hq : 0 <= n / 16 < 16 ^ Z.of_nat (S fuel)).
      { split; [apply Z.div_pos; lia|].
        apply Z.div_lt_upper_bound; [lia|].
        rewrite <- Z.pow_succ_r by lia.
        replace (Z.succ (Z.of_nat (S fuel))) with (Z.of_nat (S (S fuel))) by lia.
        lia. }
      destruct (IH (n / 16) (hex_digit (n mod 16) :: acc) Hq)
        as (ds & Heq & Hds & Hval & Hlen).
      exists (ds ++ [n mod 16]). rewrite Heq, map_app, <- app_assoc. simpl.
      repeat split.
      * apply Forall_app. split; [assumption|].
        repeat constructor; unfold is_digit; apply Z.mod_pos_bound; lia.
      * rewrite value_of_snoc, Hval. symmetry. apply Z.div_mod. lia.
      * rewrite length_app. simpl. lia.
Qed.

Lemma format_x_fuel n : 0 <= n -> n < 16 ^ Z.of_nat (S (Z.to_nat (Z.log2 n))).
Proof.
  intros Hn.
  assert (H0 : 0 <= Z.log2 n) by apply Z.log2_nonneg.
  rewrite Nat2Z.inj_succ, Z2Nat.id by assumption.
  destruct (Z.eq_dec n 0) as [->|Hnz].
  - simpl. lia.
  - apply Z.lt_le_trans with (2 ^ Z.succ (Z.log2 n)).
    + apply Z.log2_spec. lia.
    + apply Z.pow_le_mono_l. lia.
Qed.

(** [format(n, "x")] spells [n]. *)
Lemma format_x_spec n :
  0 <= n ->
  exists ds,
    format_x n = map hex_digit ds
    /\ Forall is_digit ds /\ value_of ds = n /\ (1 <= length ds)%nat.
Proof.
  intros Hn. unfold format_x.
  destruct (hex_digits_spec (Z.to_nat (Z.log2 n)) n [])
    as (ds & Heq & H).
  - split; [assumption | apply format_x_fuel; assumption].
  - exists ds. rewrite Heq, app_nil_r. auto.
Qed.

Lemma value_of_zeros k ds :
  value_of (repeat 0 k ++ ds) = value_of ds.
Proof.
  unfold value_of. rewrite fold_left_app. f_equal.
  induction k as [|k IH]; simpl; auto.
Qed.

(** [f"{n:02x}"] spells [n] with at least two digits, none dropped. *)
Lemma format_02x_spec n :
  0 <= n ->
  exists ds,
    format_02x n = map hex_digit ds
    /\ Forall is_digit ds /\ value_of ds = n /\ (2 <= length ds)%nat.
Proof.
  intros Hn. unfold format_02x.
  destruct (Z.ltb_spec n 0) as [|_]; [lia|].
  destruct (format_x_spec n Hn) as (ds & Heq & Hds & Hval & Hlen).
  exists (repeat 0 (2 - length ds) ++ ds).
  rewrite Heq, length_map, map_app, map_repeat. repeat split.
  - apply Forall_app. split; [|assumption].
    apply Forall_forall. intros d Hd. apply repeat_spec in Hd. subst.
    unfold is_digit. lia.
  - rewrite value_of_zeros. assumption.
  - rewrite length_app, repeat_length. lia.
Qed.

(** Up to 255 the representation is the high then the low nibble. *)
Lemma format_02x_byte n :
  0 <= n <= 255 ->
  format_02x n = [hex_digit (n / 16); hex_digit (n mod 16)].
Proof.
  intros Hn.
  destruct (format_02x_spec n) as (ds & Heq & Hds & Hval & Hlen); [lia|].
  assert (Hlen2 : length ds = 2%nat).
  { destruct (Nat.eq_dec (length ds) 2) as [|Hne]; [assumption|exfalso].
    unfold format_02x in Heq.
    destruct (Z.ltb_spec n 0) as [|_]; [lia|].
    apply (f_equal (@length ascii)) in Heq.
    rewrite length_app, repeat_length, length_map in Heq.
    assert (Hfx : (3 <= length (format_x n))%nat) by lia.
    destruct (format_x_spec n) as (es & He & Hes & Hev & _); [lia|].
    rewrite He, length_map in Hfx.
    (* three or more digits with a non-zero leading one exceed 255;
       the leading digit of [format_x] is settled by the value bound *)
    clear Heq Hlen Hne Hval Hds ds.
    unfold format_x in He.
    assert (Hfuel := format_x_fuel n (proj1 Hn)).
    revert He. generalize (Z.to_nat (Z.log2 n)). intros fuel He.
    cbn [hex_digits] in He.
    destruct (n / 16 =? 0) eqn:E1.
    { apply (f_equal (@length ascii)) in He. rewrite length_map in He.
      simpl in He. lia. }
    destruct fuel as [|fuel].
    { apply (f_equal (@length ascii)) in He. rewrite length_map in He.
      simpl in He. lia. }
    cbn [hex_digits] in He.
    assert (E2 : n / 16 / 16 = 0) by (apply Z.div_small; split;
      [apply Z.div_pos; lia | apply Z.div_lt_upper_bound; lia]).
    rewrite E2 in He. simpl in He.
    apply (f_equal (@length ascii)) in He. rewrite length_map in He.
    simpl in He. lia. }
  destruct ds as [|a [|b [|? ?]]]; simpl in Hlen2; try discriminate.
  apply Forall_cons_iff in Hds as [Ha Hds].
  apply Forall_cons_iff in Hds as [Hb _].
  unfold value_of in Hval. cbn [fold_left] in Hval. unfold is_digit in Ha, Hb.
  rewrite Heq. cbn [map].
  assert (n / 16 = a) by (symmetry; apply Z.div_unique with b; lia).
  assert (n mod 16 = b) by (symmetry; apply Z.mod_unique with a; lia).
  congruence.
Qed.

End HexFacts.

(* ================================================================== *)
(** * The dual-tone encoder *)
(* ================================================================== *)

Section DTMFProperties.

Import DTMF DTMFFacts.
Local Open Scope Z_scope.

(** Case analysis on a hex digit value. *)
Ltac digit_cases d H :=
  unfold is_digit in H;
  assert (d = 0 \/ d = 1 \/ d = 2 \/ d = 3 \/ d = 4 \/ d = 5 \/ d = 6
          \/ d = 7 \/ d = 8 \/ d = 9 \/ d = 10 \/ d = 11 \/ d = 12
          \/ d = 13 \/ d = 14 \/ d = 15) as Hcases by lia;
  clear H;
  repeat (destruct Hcases as [-> | Hcases]); [.. | subst d].

Lemma hex_digit_symbol d :
  is_digit d -> dict_get HEX_TO_DTMF (hex_digit d) = Ok (Keypad.symbol_of_digit d).
Proof. intros H. digit_cases d H; reflexivity. Qed.

Lemma to_symbol_hex_digit d :
  is_digit d -> to_symbol (hex_digit d) = Keypad.symbol_of_digit d.
Proof.
  intros H. unfold to_symbol, get_or. rewrite hex_digit_symbol by assumption.
  reflexivity.
Qed.

Lemma digit_of_symbol_of_digit d :
  is_digit d -> Keypad.digit_of_symbol (Keypad.symbol_of_digit d) = d.
Proof. intros H. digit_cases d H; reflexivity. Qed.

Lemma symbol_frequencies self d :
  is_digit d ->
  _symbol_to_frequencies self (Keypad.symbol_of_digit d)
  = Ok (frequencies (tone_of_digit self d)).
Proof. intros H. digit_cases d H; reflexivity. Qed.

Lemma tone_of_digit_dual self d : is_digit d -> dual_tone (tone_of_digit self d).
Proof.
  intros H. unfold dual_tone.
  digit_cases d H;
    (eexists; eexists; split; [reflexivity|]; split; vm_compute; tauto).
Qed.

Lemma tone_of_digit_duration self d :
  duration_ms (tone_of_digit self d) = tone_duration_ms self.
Proof. reflexivity. Qed.

(** The symbol sequence of a character, by digit values. *)
Lemma symbols_of_spec c :
  exists ds,
    symbols_of c = map Keypad.symbol_of_digit ds
    /\ format_02x (ord c) = map hex_digit ds
    /\ Forall is_digit ds /\ value_of ds = ord c /\ (2 <= length ds)%nat.
Proof.
  destruct (format_02x_spec (ord c)) as (ds & Heq & Hds & Hval & Hlen).
  { unfold ord. lia. }
  exists ds. repeat split; try assumption.
  unfold symbols_of. rewrite Heq, map_map.
  apply map_ext_in. intros d Hd. apply to_symbol_hex_digit.
  eapply Forall_forall; eassumption.
Qed.

(** The lookups of [_char_to_dtmf_symbols] never fail. *)
Lemma char_to_dtmf_symbols_total self c :
  _char_to_dtmf_symbols self c = Ok (symbols_of c).
Proof.
  unfold _char_to_dtmf_symbols, symbols_of.
  apply comprehension_map.
  destruct (symbols_of_spec c) as (ds & _ & Heq & Hds & _).
  rewrite Heq. apply Forall_map.
  eapply Forall_impl; [|exact Hds]. intros d Hd. cbv beta.
  rewrite hex_digit_symbol, to_symbol_hex_digit by assumption. reflexivity.
Qed.

Lemma spelled_symbols ds :
  Forall is_digit ds -> Keypad.spelled (map Keypad.symbol_of_digit ds) = value_of ds.
Proof.
  unfold Keypad.spelled, value_of. generalize 0.
  induction ds as [|d ds IH]; intros v H; simpl.
  - reflexivity.
  - apply Forall_cons_iff in H as [Hd Hds].
    rewrite digit_of_symbol_of_digit by assumption. apply IH. assumption.
Qed.

(** The inner loop appends the tone of each symbol. *)
Lemma symbols_loop self ds tones0 :
  Forall is_digit ds ->
  for_each (map Keypad.symbol_of_digit ds)
    (fun tones symbol =>
       Py.bind (_symbol_to_frequencies self symbol)
         (fun frequencies =>
            Ok (tones ++ [ {| frequencies := frequencies;
                              duration_ms := tone_duration_ms self |} ])))
    tones0
  = Ok (tones0 ++ map (tone_of_digit self) ds).
Proof.
  intros Hds.
  rewrite (for_each_append
             (fun symbol => _symbol_to_frequencies self symbol)
             (fun fr => {| frequencies := fr;
                           duration_ms := tone_duration_ms self |})
             (tone_for self)).
  - rewrite map_map. reflexivity.
  - apply Forall_map. eapply Forall_impl; [|exact Hds].
    intros d Hd. cbv beta. eexists. split.
    + apply symbol_frequencies. assumption.
    + reflexivity.
Qed.

Lemma symbols_of_digits c :
  exists ds, symbols_of c = map Keypad.symbol_of_digit ds /\ digits_spelled c ds.
Proof.
  destruct (symbols_of_spec c) as (ds & Hs & Hf & Hds & Hval & Hlen).
  exists ds. split; [assumption|]. repeat split; try assumption.
  intros Hc. pose proof (format_02x_byte (ord c)) as Hb.
  rewrite Hf in Hb. specialize (Hb ltac:(unfold ord in *; lia)).
  assert (Hlen2 : length ds = 2%nat).
  { apply (f_equal (@length ascii)) in Hb. rewrite length_map in Hb. exact Hb. }
  destruct ds as [|a [|b [|? ?]]]; simpl in Hlen2; try discriminate.
  apply Forall_cons_iff in Hds as [Ha Hds].
  apply Forall_cons_iff in Hds as [Hb' _].
  unfold value_of in Hval. cbn [fold_left] in Hval. unfold is_digit in Ha, Hb'.
  f_equal; [|f_equal].
  - apply Z.div_unique with b; lia.
  - apply Z.mod_unique with a; lia.
Qed.

(** [encode] in closed form: per character, the tones of its digits. *)
Lemma encode_tones self T :
  exists dss,
    Forall2 digits_spelled T dss
    /\ encode self T
       = Ok {| tones := map (tone_of_digit self) (concat dss);
               original_text := T |}.
Proof.
  unfold encode.
  assert (H : forall tones0,
    exists dss,
      Forall2 digits_spelled T dss
      /\ for_each T
           (fun tones char =>
              Py.bind (_char_to_dtmf_symbols self char)
                (fun symbols =>
                   for_each symbols
                     (fun tones symbol =>
                        Py.bind (_symbol_to_frequencies self symbol)
                          (fun frequencies =>
                             Ok (tones ++
                                   [ {| frequencies := frequencies;
                                        duration_ms := tone_duration_ms self |} ])))
                     tones))
           tones0
         = Ok (tones0 ++ map (tone_of_digit self) (concat dss))).
  { induction T as [|c T IH]; intros tones0.
    - exists []. split; [constructor|]. simpl. rewrite app_nil_r. reflexivity.
    - destruct (symbols_of_digits c) as (ds & Hs & Hsp).
      cbn [for_each]. rewrite char_to_dtmf_symbols_total, Hs.
      cbn [Py.bind]. rewrite symbols_loop by apply Hsp.
      cbn [Py.bind].
      destruct (IH (tones0 ++ map (tone_of_digit self) ds)) as (dss & HF & Heq).
      exists (ds :: dss). split; [constructor; assumption|].
      rewrite Heq. cbn [concat]. rewrite map_app, app_assoc. reflexivity. }
  destruct (H []) as (dss & HF & Heq).
  exists dss. split; [assumption|]. rewrite Heq. reflexivity.
Qed.

End DTMFProperties.

Section DTMFClaims.

Import DTMF DTMFFacts.
Local Open Scope Z_scope.

Lemma Forall2_length_concat (T : text) dss :
  Forall2 digits_spelled T dss ->
  Forall (fun c => ord c <= 255) T ->
  length (concat dss) = (2 * length T)%nat.
Proof.
  induction 1 as [|c ds T dss Hsp _ IH]; intros HT.
  - reflexivity.
  - apply Forall_cons_iff in HT as [Hc HT].
    destruct Hsp as (_ & _ & _ & Hbyte). rewrite (Hbyte Hc).
    cbn [concat]. rewrite length_app, (IH HT). simpl. lia.
Qed.

Lemma Forall2_digits (T : text) dss :
  Forall2 digits_spelled T dss -> Forall is_digit (concat dss).
Proof.
  induction 1 as [|c ds T dss Hsp _ IH]; cbn [concat].
  - constructor.
  - apply Forall_app. split; [apply Hsp | assumption].
Qed.

(** Whatever the text, [encode] returns a frame of dual-tone chords
    that keeps the text. *)
Lemma dtmf_encode_total self T :
  exists frame,
    encode self T = Ok frame
    /\ Forall dual_tone (tones frame)
    /\ Forall (fun ev => duration_ms ev = tone_duration_ms self) (tones frame)
    /\ original_text frame = T.
Proof.
  destruct (encode_tones self T) as (dss & HF & Heq).
  eexists. split; [exact Heq|]. cbn [tones original_text].
  pose proof (Forall2_digits _ _ HF) as Hd.
  repeat split.
  - apply Forall_map. eapply Forall_impl; [|exact Hd].
    intros d. apply tone_of_digit_dual.
  - apply Forall_map. apply Forall_forall. intros d _. reflexivity.
Qed.

(** On texts of code points up to 255 the frame has two chords per
    character. *)
Lemma dtmf_encode_latin1 self T :
  Forall (fun c => ord c <= 255) T ->
  exists frame,
    encode self T = Ok frame
    /\ length (tones frame) = (2 * length T)%nat
    /\ Forall dual_tone (tones frame)
    /\ original_text frame = T.
Proof.
  intros HT.
  destruct (encode_tones self T) as (dss & HF & Heq).
  eexists. split; [exact Heq|]. cbn [tones original_text].
  repeat split.
  - rewrite length_map. apply Forall2_length_concat; assumption.
  - apply Forall_map. eapply Forall_impl; [|exact (Forall2_digits _ _ HF)].
    intros d. apply tone_of_digit_dual.
Qed.

(** A code point above 255 has three hex digits or more, and as many
    chords. *)
Lemma dtmf_encode_wide_char self c :
  255 < ord c ->
  exists frame,
    encode self [c] = Ok frame /\ (2 < length (tones frame))%nat.
Proof.
  intros Hc.
  destruct (encode_tones self [c]) as (dss & HF & Heq).
  eexists. split; [exact Heq|]. cbn [tones]. rewrite length_map.
  inversion HF as [|? ds ? dss' Hsp HF']; subst. inversion HF'; subst.
  cbn [concat]. rewrite app_nil_r.
  destruct Hsp as (Hds & Hval & Hlen & _).
  pose proof (value_of_bound _ Hds) as Hb. rewrite Hval in Hb.
  destruct ds as [|a [|b [|? ?]]]; simpl in Hlen |- *; try lia.
  change (16 ^ Z.of_nat (length [a; b])) with 256 in Hb. lia.
Qed.

(** The symbols of a character spell its code point, all of it. *)
Lemma char_symbols_spell self c :
  exists syms,
    _char_to_dtmf_symbols self c = Ok syms /\ Keypad.spelled syms = ord c.
Proof.
  destruct (symbols_of_spec c) as (ds & Hs & _ & Hds & Hval & _).
  exists (symbols_of c). split; [apply char_to_dtmf_symbols_total|].
  rewrite Hs, spelled_symbols by assumption. exact Hval.
Qed.

Lemma char_symbols_byte self c :
  ord c <= 255 ->
  _char_to_dtmf_symbols self c
  = Ok [Keypad.symbol_of_digit (ord c / 16); Keypad.symbol_of_digit (ord c mod 16)].
Proof.
  intros Hc. rewrite char_to_dtmf_symbols_total.
  destruct (symbols_of_digits c) as (ds & Hs & _ & _ & _ & Hbyte).
  rewrite Hs, (Hbyte Hc). reflexivity.
Qed.

Lemma encode_byte self c :
  ord c <= 255 ->
  encode self [c]
  = Ok {| tones := [tone_of_digit self (ord c / 16);
                    tone_of_digit self (ord c mod 16)];
          original_text := [c] |}.
Proof.
  intros Hc.
  destruct (encode_tones self [c]) as (dss & HF & Heq).
  rewrite Heq.
  inversion HF as [|? ds ? dss' Hsp HF']; subst. inversion HF'; subst.
  destruct Hsp as (_ & _ & _ & Hbyte). rewrite (Hbyte Hc). reflexivity.
Qed.

(** Every key of the documented keypad sounds its row and its column. *)
Lemma keypad_chords self i j :
  (i < 4)%nat -> (j < 4)%nat ->
  _symbol_to_frequencies self (Keypad.key i j) = Ok (Keypad.chord i j).
Proof.
  intros Hi Hj.
  destruct i as [|[|[|[|i]]]]; try lia;
    (destruct j as [|[|[|[|j]]]]; try lia; reflexivity).
Qed.

End DTMFClaims.

(** C1 (dual-tone frame size), evaluated where it breaks. The euro sign,
    U+20AC, has four hex digits, and [encode] returns a frame of four
    chords for this one-character text, not the two that the claim and
    the docstring of [encode] promise; the chords themselves are proper
    dual-tone chords and the text is kept. *)
Theorem dtmf_encode_euro_sign_four_chords :
  forall self,
    exists frame,
      DTMF.encode self [8364%N] = Ok frame
      /\ length (tones frame) = 4%nat
      /\ length (tones frame) <> (2 * length [8364%N])%nat
      /\ Forall DTMFFacts.dual_tone (tones frame)
      /\ original_text frame = [8364%N].
Proof.
  intros self.
  eexists. split; [reflexivity|]. cbn [tones original_text].
  repeat split.
  - simpl. lia.
  - repeat constructor;
      (eexists; eexists; split; [reflexivity|]; split; vm_compute; tauto).
Qed.

(** C2, as stated, fails: no range error is raised for the euro sign
    (code point 8364 > 255); [encode] returns the frame of its four hex
    digits 2, 0, a, c. *)
Lemma dtmf_euro_sign_not_rejected :
  DTMF.encode {| DTMF.tone_duration_ms := 100 |} [8364%N]
  = Ok {| tones :=
            [ {| frequencies := [697%float; 1336%float]; duration_ms := 100 |};
              {| frequencies := [941%float; 1336%float]; duration_ms := 100 |};
              {| frequencies := [697%float; 1633%float]; duration_ms := 100 |};
              {| frequencies := [852%float; 1633%float]; duration_ms := 100 |} ];
          original_text := [8364%N] |}
  /\ (255 < ord 8364%N)%Z
  /\ raises (DTMF.encode {| DTMF.tone_duration_ms := 100 |} [8364%N]) = false.
Proof. repeat split. Qed.

(** C2, amended: the dual-tone encoder raises no encoding-range error,
    and none is defined. For every text, characters of code point above
    255 included, every lookup of [_char_to_dtmf_symbols] succeeds and
    [encode] returns a frame. *)
Theorem dtmf_encode_raises_no_range_error :
  (forall self T, exists frame, DTMF.encode self T = Ok frame)
  /\ (forall self T, raises (DTMF.encode self T) = false)
  /\ (forall self c,
        exists syms, DTMF._char_to_dtmf_symbols self c = Ok syms).
Proof.
  split; [|split].
  - intros self T. destruct (dtmf_encode_total self T) as (frame & H & _).
    exists frame. exact H.
  - intros self T. destruct (dtmf_encode_total self T) as (frame & H & _).
    rewrite H. reflexivity.
  - intros self c. eexists. apply char_to_dtmf_symbols_total.
Qed.



(* ================================================================== *)
(** * The single-tone encoders *)
(* ================================================================== *)

Section SingleToneProperties.

Local Open Scope Z_scope.

Lemma clamp_ord c : Z.max 0 (Z.min 255 (ord c)) = Z.min (ord c) 255.
Proof. unfold ord. lia. Qed.

Lemma clamp_ord_high c : 255 <= ord c -> Z.max 0 (Z.min 255 (ord c)) = 255.
Proof. lia. Qed.

Lemma fsk_char_to_frequency self c :
  FSK._char_to_frequency self c
  = (400 + float_of_int (Z.min (ord c) 255) / 255 * 1600)%float.
Proof.
  unfold FSK._char_to_frequency. cbv zeta. rewrite clamp_ord. reflexivity.
Qed.

Lemma ultrasonic_char_to_frequency self c :
  Ultrasonic._char_to_frequency self c
  = (15000 + float_of_int (Z.min (ord c) 255) / 255 * 5000)%float.
Proof.
  unfold Ultrasonic._char_to_frequency. cbv zeta. rewrite clamp_ord.
  reflexivity.
Qed.

Lemma fsk_encode_map self T :
  FSK.encode self T
  = Ok {| tones :=
            map (fun c => {| frequencies := [FSK._char_to_frequency self c];
                             duration_ms := FSK.tone_duration_ms self |}) T;
          original_text := T |}.
Proof.
  unfold FSK.encode.
  rewrite (for_each_append_pure
             (fun c => {| frequencies := [FSK._char_to_frequency self c];
                          duration_ms := FSK.tone_duration_ms self |})).
  reflexivity.
Qed.

Lemma ultrasonic_encode_map self T :
  Ultrasonic.encode self T
  = Ok {| tones :=
            map (fun c =>
                   {| frequencies := [Ultrasonic._char_to_frequency self c];
                      duration_ms := Ultrasonic.tone_duration_ms self |}) T;
          original_text := T |}.
Proof.
  unfold Ultrasonic.encode.
  rewrite (for_each_append_pure
             (fun c =>
                {| frequencies := [Ultrasonic._char_to_frequency self c];
                   duration_ms := Ultrasonic.tone_duration_ms self |})).
  reflexivity.
Qed.

End SingleToneProperties.

(** C7: per character, the audible encoder emits one tone event of the
    single frequency 400 + (min(c,255)/255)*1600 and the ultrasonic one
    of 15000 + (min(c,255)/255)*5000, in binary64 arithmetic as Python
    evaluates it. Code points from 255 up are clamped to the top of the
    band and nothing is rejected. In the audible band code point 0 gives
    exactly 400, 255 exactly 2000, and 65 a value between 807.75 and
    807.875. *)
Theorem single_tone_linear_frequency :
  (forall self T,
     FSK.encode self T
     = Ok {| tones :=
               map (fun c =>
                      {| frequencies :=
                           [(400 + float_of_int (Z.min (ord c) 255) / 255
                                   * 1600)%float];
                         duration_ms := FSK.tone_duration_ms self |}) T;
             original_text := T |})
  /\ (forall self T,
        Ultrasonic.encode self T
        = Ok {| tones :=
                  map (fun c =>
                         {| frequencies :=
                              [(15000 + float_of_int (Z.min (ord c) 255) / 255
                                        * 5000)%float];
                            duration_ms := Ultrasonic.tone_duration_ms self |})
                    T;
                original_text := T |})
  /\ (forall audible ultrasonic c,
        (255 <= ord c)%Z ->
        FSK._char_to_frequency audible c = 2000%float
        /\ Ultrasonic._char_to_frequency ultrasonic c = 20000%float)
  /\ (forall self,
        FSK._char_to_frequency self 0%N = 400%float
        /\ FSK._char_to_frequency self 255%N = 2000%float
        /\ (807.75 <? FSK._char_to_frequency self 65%N)%float = true
        /\ (FSK._char_to_frequency self 65%N <? 807.875)%float = true).
Proof.
  split; [|split; [|split]].
  - intros self T. rewrite fsk_encode_map. do 2 f_equal.
    apply map_ext. intros c. rewrite fsk_char_to_frequency. reflexivity.
  - intros self T. rewrite ultrasonic_encode_map. do 2 f_equal.
    apply map_ext. intros c. rewrite ultrasonic_char_to_frequency.
    reflexivity.
  - intros audible ultrasonic c Hc.
    unfold FSK._char_to_frequency, Ultrasonic._char_to_frequency. cbv zeta.
    rewrite (clamp_ord_high c Hc). split; reflexivity.
  - intros self. repeat split.
Qed.

Lemma single_tone_linear_frequency_witness :
  (255 <= ord 8364%N)%Z
  /\ FSK._char_to_frequency {| FSK.tone_duration_ms := 100 |} 8364%N
     = 2000%float
  /\ Ultrasonic._char_to_frequency {| Ultrasonic.tone_duration_ms := 5 |}
       8364%N = 20000%float.
Proof.
  assert (H : (255 <= ord 8364%N)%Z) by (vm_compute; discriminate).
  split; [exact H|].
  exact (proj1 (proj2 (proj2 single_tone_linear_frequency))
           {| FSK.tone_duration_ms := 100 |}
           {| Ultrasonic.tone_duration_ms := 5 |} 8364%N H).
Defined.

(** C10: encoding does not touch the configuration, and every tone
    event of the frame carries the configured duration; this for the
    dual-tone, the audible and the ultrasonic encoder, whose default
    durations are 100, 100 and 5 ms. *)
Theorem encode_keeps_configured_duration :
  (forall self T,
     fst (call_reading (fun s => DTMF.encode s T) self) = self
     /\ exists frame,
          snd (call_reading (fun s => DTMF.encode s T) self) = Ok frame
          /\ Forall (fun ev => duration_ms ev = DTMF.tone_duration_ms self)
               (tones frame))
  /\ (forall self T,
        fst (call_reading (fun s => FSK.encode s T) self) = self
        /\ exists frame,
             snd (call_reading (fun s => FSK.encode s T) self) = Ok frame
             /\ Forall (fun ev => duration_ms ev = FSK.tone_duration_ms self)
                  (tones frame))
  /\ (forall self T,
        fst (call_reading (fun s => Ultrasonic.encode s T) self) = self
        /\ exists frame,
             snd (call_reading (fun s => Ultrasonic.encode s T) self)
             = Ok frame
             /\ Forall
                  (fun ev => duration_ms ev = Ultrasonic.tone_duration_ms self)
                  (tones frame))
  /\ DTMF.__init__ None = Ok {| DTMF.tone_duration_ms := 100 |}
  /\ FSK.__init__ None = Ok {| FSK.tone_duration_ms := 100 |}
  /\ Ultrasonic.__init__ None = Ok {| Ultrasonic.tone_duration_ms := 5 |}.
Proof.
  repeat match goal with |- _ /\ _ => split end; try reflexivity.
  - intros self T. split; [reflexivity|]. cbn [call_reading snd].
    destruct (dtmf_encode_total self T) as (frame & H & _ & Hd & _).
    exists frame. split; assumption.
  - intros self T. split; [reflexivity|]. cbn [call_reading snd].
    rewrite fsk_encode_map. eexists. split; [reflexivity|]. cbn [tones].
    apply Forall_map. apply Forall_forall. intros c _. reflexivity.
  - intros self T. split; [reflexivity|]. cbn [call_reading snd].
    rewrite ultrasonic_encode_map. eexists. split; [reflexivity|].
    cbn [tones]. apply Forall_map. apply Forall_forall. intros c _.
    reflexivity.
Qed.

(* ================================================================== *)
(** * The token buffer *)
(* ================================================================== *)

Section TokenBufferProperties.

Import Buffer TokenBuffer TokenBufferFacts.
Local Open Scope Z_scope.

Lemma flush_empty st : _buffer (self st) = [] -> flush st = (st, Ok tt).
Proof.
  intros H. unfold flush, Buffer.bind, read. cbv beta. rewrite H. reflexivity.
Qed.

Lemma flush_nonempty st :
  _buffer (self st) <> [] ->
  flush st
  = match on_flush (self st) (calls st) (_buffer (self st)) with
    | Ok _ => (cleared st, Ok tt)
    | Raise e => (called st, Raise e)
    end.
Proof.
  intros H.
  unfold flush, Buffer.bind, read, await_on_flush, assign_buffer,
    assign_token_count, cleared, called.
  cbv beta.
  destruct (_buffer (self st)) as [|c b] eqn:E; [contradiction|].
  cbn [truthy].
  destruct (on_flush (self st) (calls st) (c :: b)) as [u|e]; reflexivity.
Qed.

Lemma add_unfold fragment st :
  add fragment st
  = if _token_count (self st) + 1 >=? buffer_size (self st)
    then flush (appended fragment st)
    else (appended fragment st, Ok tt).
Proof.
  unfold add, Buffer.bind, read, assign_buffer, assign_token_count.
  cbv beta iota. cbn [self _token_count buffer_size].
  fold (appended fragment st).
  destruct (_token_count (self st) + 1 >=? buffer_size (self st));
    reflexivity.
Qed.

Lemma run_cons o ops st :
  run (o :: ops) st
  = match perform o st with
    | (st', Ok _) => run ops st'
    | (st', Raise e) => (st', Raise e)
    end.
Proof. reflexivity. Qed.

(** [flush] in one equation. *)
Lemma flush_cases st :
  (_buffer (self st) = [] /\ flush st = (st, Ok tt))
  \/ (_buffer (self st) <> []
      /\ ((exists u, on_flush (self st) (calls st) (_buffer (self st)) = Ok u
                      /\ flush st = (cleared st, Ok tt))
          \/ (exists e, on_flush (self st) (calls st) (_buffer (self st)) = Raise e
                        /\ flush st = (called st, Raise e)))).
Proof.
  destruct (_buffer (self st)) as [|c b] eqn:E.
  - left. split; [reflexivity|]. apply flush_empty. assumption.
  - right. split; [discriminate|].
    assert (Hne : _buffer (self st) <> []) by (rewrite E; discriminate).
    rewrite (flush_nonempty st Hne), E.
    destruct (on_flush (self st) (calls st) (c :: b)) as [u|e].
    + left. exists u. split; reflexivity.
    + right. exists e. split; reflexivity.
Qed.

Lemma flush_buffer_size st :
  buffer_size (self (fst (flush st))) = buffer_size (self st).
Proof.
  destruct (flush_cases st) as [[_ H]|[_ [(u & _ & H)|(e & _ & H)]]];
    rewrite H; reflexivity.
Qed.

Lemma perform_buffer_size o st :
  buffer_size (self (fst (perform o st))) = buffer_size (self st).
Proof.
  destruct o as [fragment|]; cbn [perform].
  - rewrite add_unfold.
    destruct (_token_count (self st) + 1 >=? buffer_size (self st)).
    + rewrite flush_buffer_size. reflexivity.
    + reflexivity.
  - apply flush_buffer_size.
Qed.

(** After a flush that returns, the text is empty; the counter is zero
    as well when there was text to hand over. *)
Lemma flush_returns st :
  snd (flush st) = Ok tt ->
  _buffer (self (fst (flush st))) = []
  /\ (_buffer (self st) <> [] -> _token_count (self (fst (flush st))) = 0)
  /\ (_buffer (self st) = [] ->
      _token_count (self (fst (flush st))) = _token_count (self st)).
Proof.
  intros Hok.
  destruct (flush_cases st) as [[Hb H]|[Hb [(u & _ & H)|(e & _ & H)]]];
    rewrite H in Hok |- *; cbn [fst snd] in *.
  - repeat split; auto. intros Hne. contradiction.
  - repeat split; auto. intros He. contradiction.
  - discriminate.
Qed.

(** One operation keeps the counter below the threshold, provided it
    returns and, if an [add], brings a non-empty fragment. *)
Lemma perform_below_threshold o st :
  is_nonempty_add o ->
  0 <= _token_count (self st) < buffer_size (self st) ->
  snd (perform o st) = Ok tt ->
  0 <= _token_count (self (fst (perform o st))) < buffer_size (self st).
Proof.
  intros Ho Hinv Hok. destruct o as [fragment|]; cbn [perform] in *.
  - rewrite add_unfold in Hok |- *.
    destruct (Z.geb_spec (_token_count (self st) + 1) (buffer_size (self st)))
      as [Hge|Hlt].
    + destruct (flush_returns (appended fragment st) Hok) as (_ & Hz & _).
      rewrite Hz; [lia|]. cbn [appended self _buffer].
      intros Happ. apply app_eq_nil in Happ as [_ Hf]. contradiction.
    + cbn [fst appended self _token_count]. lia.
  - destruct (flush_returns st Hok) as (_ & Hz & Hsame).
    destruct (_buffer (self st)) as [|c b] eqn:E.
    + rewrite Hsame by reflexivity. assumption.
    + rewrite Hz by discriminate. lia.
Qed.

Lemma run_below_threshold ops : forall st st',
  Forall is_nonempty_add ops ->
  0 <= _token_count (self st) < buffer_size (self st) ->
  run ops st = (st', Ok tt) ->
  0 <= _token_count (self st') < buffer_size (self st')
  /\ buffer_size (self st') = buffer_size (self st).
Proof.
  induction ops as [|o ops IH]; intros st st' Hops Hinv Hrun.
  - inversion Hrun; subst. split; [assumption | reflexivity].
  - apply Forall_cons_iff in Hops as [Ho Hops].
    rewrite run_cons in Hrun.
    pose proof (perform_below_threshold o st Ho Hinv) as Hstep.
    pose proof (perform_buffer_size o st) as Hsize.
    destruct (perform o st) as [st1 [[]|e]]; cbn [fst snd] in *.
    + destruct (IH st1 st' Hops) as [H1 H2]; try assumption.
      * rewrite Hsize. apply Hstep. reflexivity.
      * split; [assumption | congruence].
    + inversion Hrun.
Qed.

(** An operation raises only what the callback raises. *)
Lemma perform_returns o st :
  (forall hist t, on_flush (self st) hist t = Ok tt) ->
  snd (perform o st) = Ok tt.
Proof.
  intros Hh.
  assert (Hflush : forall st0,
            on_flush (self st0) = on_flush (self st) ->
            snd (flush st0) = Ok tt).
  { intros st0 Hsame.
    destruct (flush_cases st0) as [[_ H]|[_ [(u & _ & H)|(e & He & H)]]];
      rewrite H; try reflexivity.
    rewrite Hsame, Hh in He. discriminate. }
  destruct o as [fragment|]; cbn [perform].
  - rewrite add_unfold.
    destruct (_token_count (self st) + 1 >=? buffer_size (self st)).
    + apply Hflush. reflexivity.
    + reflexivity.
  - apply Hflush. reflexivity.
Qed.

End TokenBufferProperties.

(** C3, as stated, fails. With threshold 2 and a callback that always
    returns, adding the empty fragment leaves the text empty and the
    counter at 1; the explicit [flush] that follows returns without
    calling the callback and the counter is still 1, not 0. Three empty
    fragments drive the counter to 3, above the threshold 2. *)
Lemma flush_on_empty_text_keeps_counter :
  let st0 := TokenBuffer.fresh 2 TokenBufferFacts.accepting in
  let st1 := fst (TokenBuffer.add [] st0) in
  let st3 := fst (TokenBuffer.run
                    [TokenBuffer.Add []; TokenBuffer.Add []; TokenBuffer.Add []]
                    st0) in
  snd (TokenBuffer.add [] st0) = Ok tt
  /\ snd (TokenBuffer.flush st1) = Ok tt
  /\ Buffer._buffer (Buffer.self (fst (TokenBuffer.flush st1))) = []
  /\ Buffer._token_count (Buffer.self (fst (TokenBuffer.flush st1))) = 1%Z
  /\ Buffer.calls (fst (TokenBuffer.flush st1)) = []
  /\ snd (TokenBuffer.run
            [TokenBuffer.Add []; TokenBuffer.Add []; TokenBuffer.Add []] st0)
     = Ok tt
  /\ Buffer._token_count (Buffer.self st3) = 3%Z
  /\ (Buffer.buffer_size (Buffer.self st3) < Buffer._token_count (Buffer.self st3))%Z.
Proof. cbv zeta. repeat split. Qed.

(** C3, amended. After a [flush] that returns, the accumulated text is
    empty, and the counter is zero if there was text to flush (on an
    empty text the counter is left as it was); the same holds for the
    flush that [add] performs when the counter reaches the threshold.
    Consequently, with a threshold of at least 1, in any sequence of
    [add] and [flush] calls that all return and whose added fragments
    are non-empty, the counter stays below the threshold. *)
Theorem flush_resets_and_counter_stays_below_threshold :
  (forall st,
     snd (TokenBuffer.flush st) = Ok tt ->
     Buffer._buffer (Buffer.self (fst (TokenBuffer.flush st))) = []
     /\ (Buffer._buffer (Buffer.self st) <> [] ->
         Buffer._token_count (Buffer.self (fst (TokenBuffer.flush st))) = 0%Z)
     /\ (Buffer._buffer (Buffer.self st) = [] ->
         Buffer._token_count (Buffer.self (fst (TokenBuffer.flush st)))
         = Buffer._token_count (Buffer.self st)))
  /\ (forall st fragment,
        (Buffer.buffer_size (Buffer.self st)
         <= Buffer._token_count (Buffer.self st) + 1)%Z ->
        snd (TokenBuffer.add fragment st) = Ok tt ->
        Buffer._buffer (Buffer.self (fst (TokenBuffer.add fragment st))) = []
        /\ (Buffer._buffer (Buffer.self st) ++ fragment <> [] ->
            Buffer._token_count
              (Buffer.self (fst (TokenBuffer.add fragment st))) = 0%Z))
  /\ (forall threshold on_flush ops st,
        (1 <= threshold)%Z ->
        Forall TokenBufferFacts.is_nonempty_add ops ->
        TokenBuffer.run ops (TokenBuffer.fresh threshold on_flush)
        = (st, Ok tt) ->
        (0 <= Buffer._token_count (Buffer.self st) < threshold)%Z
        /\ Buffer.buffer_size (Buffer.self st) = threshold).
Proof.
  split; [|split].
  - apply flush_returns.
  - intros st fragment Hreach Hok.
    rewrite add_unfold in Hok |- *.
    destruct (Z.geb_spec (Buffer._token_count (Buffer.self st) + 1)
                (Buffer.buffer_size (Buffer.self st))) as [_|Hlt]; [|lia].
    destruct (flush_returns _ Hok) as (Hb & Hz & _).
    split; [exact Hb | exact Hz].
  - intros threshold on_flush ops st Hthr Hops Hrun.
    assert (H0 : (0 <= Buffer._token_count
                        (Buffer.self (TokenBuffer.fresh threshold on_flush))
                  < Buffer.buffer_size
                      (Buffer.self (TokenBuffer.fresh threshold on_flush)))%Z)
      by (cbn [TokenBuffer.fresh Buffer.self Buffer._token_count
               Buffer.buffer_size]; lia).
    destruct (run_below_threshold ops _ st Hops H0 Hrun) as [Hc Hs].
    cbn [TokenBuffer.fresh Buffer.self Buffer.buffer_size] in Hs.
    rewrite Hs in Hc. split; assumption.
Qed.

Lemma flush_resets_and_counter_stays_below_threshold_witness :
  let st0 := TokenBuffer.fresh 2 TokenBufferFacts.accepting in
  let st1 := fst (TokenBuffer.add [97%N] st0) in
  let ops := [TokenBuffer.Add [97%N]; TokenBuffer.Add [98%N];
              TokenBuffer.Add [99%N]; TokenBuffer.Flush] in
  (* an explicit flush of "a" *)
  (Buffer._buffer (Buffer.self (fst (TokenBuffer.flush st1))) = []
   /\ Buffer._token_count (Buffer.self (fst (TokenBuffer.flush st1))) = 0%Z)
  (* the flush inside the second add *)
  /\ (Buffer._buffer (Buffer.self (fst (TokenBuffer.add [98%N] st1))) = []
      /\ Buffer._token_count (Buffer.self (fst (TokenBuffer.add [98%N] st1)))
         = 0%Z)
  (* a run of four operations *)
  /\ (0 <= Buffer._token_count
             (Buffer.self (fst (TokenBuffer.run ops st0))) < 2)%Z.
Proof.
  cbv zeta.
  pose proof flush_resets_and_counter_stays_below_threshold as [Hf [Ha Hr]].
  split; [|split].
  - destruct (Hf (fst (TokenBuffer.add [97%N]
                         (TokenBuffer.fresh 2 TokenBufferFacts.accepting)))
                eq_refl) as (Hb & Hz & _).
    split; [exact Hb | apply Hz; discriminate].
  - destruct (Ha (fst (TokenBuffer.add [97%N]
                         (TokenBuffer.fresh 2 TokenBufferFacts.accepting)))
                [98%N] ltac:(vm_compute; discriminate) eq_refl) as (Hb & Hz).
    split; [exact Hb | apply Hz; discriminate].
  - assert (Hops : Forall TokenBufferFacts.is_nonempty_add
                     [TokenBuffer.Add [97%N]; TokenBuffer.Add [98%N];
                      TokenBuffer.Add [99%N]; TokenBuffer.Flush])
      by (repeat constructor; discriminate).
    assert (Hrun :
      TokenBuffer.run
        [TokenBuffer.Add [97%N]; TokenBuffer.Add [98%N];
         TokenBuffer.Add [99%N]; TokenBuffer.Flush]
        (TokenBuffer.fresh 2 TokenBufferFacts.accepting)
      = (fst (TokenBuffer.run
                [TokenBuffer.Add [97%N]; TokenBuffer.Add [98%N];
                 TokenBuffer.Add [99%N]; TokenBuffer.Flush]
                (TokenBuffer.fresh 2 TokenBufferFacts.accepting)), Ok tt))
      by (vm_compute; reflexivity).
    exact (proj1 (Hr 2%Z TokenBufferFacts.accepting _ _ ltac:(lia) Hops Hrun)).
Defined.

(** C4: [flush] calls the callback exactly once, with the whole
    accumulated text, when that text is non-empty, and not at all when
    it is empty, so never with an empty text; the call is made with the
    history of the earlier calls and its outcome is the outcome of
    [flush]. If the callback raises, the text and the counter are as
    they were: clearing comes after the callback has returned. *)
Theorem flush_calls_handler_once_with_text :
  forall st,
    Buffer.calls (fst (TokenBuffer.flush st))
    = Buffer.calls st
      ++ (if TokenBuffer.truthy (Buffer._buffer (Buffer.self st))
          then [Buffer._buffer (Buffer.self st)] else [])
    /\ (Buffer._buffer (Buffer.self st) = [] ->
        TokenBuffer.flush st = (st, Ok tt))
    /\ (Buffer._buffer (Buffer.self st) <> [] ->
        snd (TokenBuffer.flush st)
        = Py.bind (Buffer.on_flush (Buffer.self st) (Buffer.calls st)
                     (Buffer._buffer (Buffer.self st)))
            (fun _ => Ok tt))
    /\ (forall e,
          snd (TokenBuffer.flush st) = Raise e ->
          Buffer.self (fst (TokenBuffer.flush st)) = Buffer.self st).
Proof.
  intros st.
  assert (Ht : Buffer._buffer (Buffer.self st) <> [] ->
               TokenBuffer.truthy (Buffer._buffer (Buffer.self st)) = true).
  { destruct (Buffer._buffer (Buffer.self st)); [contradiction|reflexivity]. }
  destruct (flush_cases st) as [[Hb H]|[Hb [(u & Hu & H)|(e & He & H)]]];
    rewrite H; cbn [fst snd].
  - rewrite Hb. cbn [TokenBuffer.truthy]. rewrite app_nil_r.
    split; [reflexivity|]. split; [reflexivity|].
    split; [intros Hne; contradiction | intros e He; discriminate He].
  - rewrite (Ht Hb), Hu.
    split; [reflexivity|]. split; [intros He; contradiction|].
    split; [reflexivity | intros e He; discriminate He].
  - rewrite (Ht Hb), He.
    split; [reflexivity|]. split; [intros Hb'; contradiction|].
    split; reflexivity.
Qed.

Lemma flush_calls_handler_once_with_text_witness :
  let pending :=
    {| Buffer.self := {| Buffer.buffer_size := 3;
                         Buffer.on_flush := TokenBufferFacts.refusing;
                         Buffer._buffer := [72%N; 105%N];
                         Buffer._token_count := 2 |};
       Buffer.calls := [] |} in
  let idle := TokenBuffer.fresh 3 TokenBufferFacts.refusing in
  (* the callback raises on "Hi": one call, nothing cleared *)
  Buffer.calls (fst (TokenBuffer.flush pending)) = [[72%N; 105%N]]
  /\ snd (TokenBuffer.flush pending) = Raise HandlerError
  /\ Buffer.self (fst (TokenBuffer.flush pending)) = Buffer.self pending
  (* nothing to flush: no call *)
  /\ TokenBuffer.flush idle = (idle, Ok tt).
Proof.
  cbv zeta.
  set (pending :=
    {| Buffer.self := {| Buffer.buffer_size := 3;
                         Buffer.on_flush := TokenBufferFacts.refusing;
                         Buffer._buffer := [72%N; 105%N];
                         Buffer._token_count := 2 |};
       Buffer.calls := [] |}).
  set (idle := TokenBuffer.fresh 3 TokenBufferFacts.refusing).
  destruct (flush_calls_handler_once_with_text pending)
    as (Hcalls & _ & Hout & Hkeep).
  destruct (flush_calls_handler_once_with_text idle) as (_ & Hidle & _).
  split; [exact Hcalls|].
  split; [exact (Hout ltac:(discriminate))|].
  split; [exact (Hkeep HandlerError (Hout ltac:(discriminate)))|].
  exact (Hidle eq_refl).
Defined.

(* ================================================================== *)
(** * The integer model of the two truncations *)
(* ================================================================== *)

(** For every sample rate up to 100000 Hz, [int(sample_rate * 0.01)]
    computed in binary64 is the truncated hundredth. *)
Lemma fade_samples_agrees_with_binary64 :
  Binary64.all_from
    (fun r => Binary64.truncates_to (Binary64.fade_product r)
                (Tone.fade_samples_of r))
    0 (Z.to_nat 100001) = true.
Proof. vm_compute. reflexivity. Qed.

(** For the common sample rates and every duration up to 2000 ms,
    [int(sample_rate * duration_ms / 1000)] computed in binary64 is the
    truncated quotient. *)
Lemma num_samples_agrees_with_binary64 :
  forallb
    (fun r =>
       Binary64.all_from
         (fun d => Binary64.truncates_to (Binary64.samples_quotient d r)
                     (Tone.num_samples_of d r))
         0 (Z.to_nat 2001))
    Binary64.common_rates = true.
Proof. vm_compute. reflexivity. Qed.

(* ================================================================== *)
(** * The tone synthesizer *)
(* ================================================================== *)

Section ToneProperties.

Import Tone ToneFacts.
Local Open Scope R_scope.

(** ** Arrays *)

Lemma vadd_length a b : length a = length b -> length (vadd a b) = length a.
Proof.
  intros H. unfold vadd. rewrite length_map, length_combine, <- H.
  apply Nat.min_id.
Qed.

Lemma vmul_length a b : length a = length b -> length (vmul a b) = length a.
Proof.
  intros H. unfold vmul. rewrite length_map, length_combine, <- H.
  apply Nat.min_id.
Qed.

Lemma nth_map_in {A} (f : A -> R) l i d :
  (i < length l)%nat -> nth i (map f l) 0 = f (nth i l d).
Proof.
  intros H. rewrite (nth_indep _ 0 (f d)) by (rewrite length_map; exact H).
  apply map_nth.
Qed.

Lemma vadd_nth a b i :
  length a = length b -> (i < length a)%nat ->
  nth i (vadd a b) 0 = nth i a 0 + nth i b 0.
Proof.
  intros Hlen Hi. unfold vadd.
  rewrite (nth_map_in _ _ _ (0, 0))
    by (rewrite length_combine, <- Hlen, Nat.min_id; exact Hi).
  rewrite combine_nth by exact Hlen. reflexivity.
Qed.

Lemma vmul_nth a b i :
  length a = length b -> (i < length a)%nat ->
  nth i (vmul a b) 0 = nth i a 0 * nth i b 0.
Proof.
  intros Hlen Hi. unfold vmul.
  rewrite (nth_map_in _ _ _ (0, 0))
    by (rewrite length_combine, <- Hlen, Nat.min_id; exact Hi).
  rewrite combine_nth by exact Hlen. reflexivity.
Qed.

Lemma abs_le_interval a b : Rabs a <= b -> - b <= a <= b.
Proof. unfold Rabs. destruct (Rcase_abs a); lra. Qed.

(** ** [linspace] *)

Lemma linspace_ok start stop num :
  (0 <= num)%Z ->
  exists a,
    linspace start stop num = Ok a
    /\ length a = Z.to_nat num
    /\ forall i, (i < Z.to_nat num)%nat ->
         nth i a 0
         = start + INR i * (if (0 <? Z.to_nat num - 1)%nat
                            then (stop - start) / INR (Z.to_nat num - 1)
                            else stop - start).
Proof.
  intros Hnum. unfold linspace.
  destruct (Z.ltb_spec num 0) as [|_]; [lia|].
  eexists. split; [reflexivity|]. split.
  - rewrite length_map, length_seq. reflexivity.
  - intros i Hi.
    rewrite (nth_map_in _ _ _ 0%nat) by (rewrite length_seq; exact Hi).
    rewrite seq_nth by exact Hi. reflexivity.
Qed.

Lemma linspace_negative start stop num :
  (num < 0)%Z -> linspace start stop num = Raise ValueError.
Proof.
  intros H. unfold linspace. destruct (Z.ltb_spec num 0); [reflexivity|lia].
Qed.

(** ** The summed signal *)

Lemma sines_fold_length t frequencies : forall init,
  length init = length t ->
  length (fold_left
            (fun signal freq =>
               vadd signal (map (fun ti => sin (2 * PI * freq * ti)) t))
            frequencies init) = length t.
Proof.
  induction frequencies as [|f fs IH]; intros init Hlen; simpl.
  - exact Hlen.
  - apply IH. rewrite vadd_length; [exact Hlen|].
    rewrite length_map. exact Hlen.
Qed.

Lemma sines_fold_nth t frequencies i : forall init,
  length init = length t -> (i < length t)%nat ->
  nth i (fold_left
           (fun signal freq =>
              vadd signal (map (fun ti => sin (2 * PI * freq * ti)) t))
           frequencies init) 0
  = fold_left (fun acc f => acc + sin (2 * PI * f * nth i t 0)) frequencies
      (nth i init 0).
Proof.
  induction frequencies as [|f fs IH]; intros init Hlen Hi; simpl.
  - reflexivity.
  - rewrite IH.
    + rewrite vadd_nth; [|rewrite length_map; exact Hlen|rewrite Hlen; exact Hi].
      rewrite (nth_map_in _ _ _ 0) by exact Hi. reflexivity.
    + rewrite vadd_length; [exact Hlen|]. rewrite length_map. exact Hlen.
    + exact Hi.
Qed.

Lemma zeros_like_length t : length (zeros_like t) = length t.
Proof. apply length_map. Qed.

Lemma zeros_like_nth t i : nth i (zeros_like t) 0 = 0.
Proof.
  unfold zeros_like. destruct (Nat.lt_ge_cases i (length t)) as [H|H].
  - rewrite (nth_map_in _ _ _ 0) by exact H. reflexivity.
  - apply nth_overflow. rewrite length_map. exact H.
Qed.

Lemma summed_signal_length frequencies t :
  length (summed_signal frequencies t) = length t.
Proof.
  unfold summed_signal. cbv zeta.
  destruct (0 <? length frequencies)%nat.
  - rewrite length_map. apply sines_fold_length, zeros_like_length.
  - apply sines_fold_length, zeros_like_length.
Qed.

Lemma summed_signal_empty t : summed_signal [] t = zeros_like t.
Proof. reflexivity. Qed.

Lemma summed_signal_nth frequencies t i :
  frequencies <> [] -> (i < length t)%nat ->
  nth i (summed_signal frequencies t) 0
  = sine_sum frequencies (nth i t 0) / INR (length frequencies).
Proof.
  intros Hne Hi. unfold summed_signal. cbv zeta.
  destruct (Nat.ltb_spec 0 (length frequencies)) as [_|H0].
  - rewrite (nth_map_in _ _ _ 0)
      by (rewrite sines_fold_length; [exact Hi | apply zeros_like_length]).
    rewrite (sines_fold_nth t frequencies i (zeros_like t)
               (zeros_like_length t) Hi).
    rewrite zeros_like_nth. reflexivity.
  - destruct frequencies; [contradiction | simpl in H0; lia].
Qed.

Lemma sine_fold_bound frequencies t : forall a,
  Rabs (fold_left (fun acc f => acc + sin (2 * PI * f * t)) frequencies a)
  <= Rabs a + INR (length frequencies).
Proof.
  induction frequencies as [|f fs IH]; intros a.
  - simpl. lra.
  - cbn [fold_left]. eapply Rle_trans; [apply IH|].
    change (length (f :: fs)) with (S (length fs)). rewrite S_INR.
    pose proof (Rabs_triang a (sin (2 * PI * f * t))) as Htri.
    pose proof (SIN_bound (2 * PI * f * t)) as [Hlo Hhi].
    assert (Rabs (sin (2 * PI * f * t)) <= 1) by (apply Rabs_le; lra).
    lra.
Qed.

(** Normalised by their number, summed sines stay within [-1, 1]. *)
Lemma sine_sum_normalised frequencies t :
  frequencies <> [] ->
  Rabs (sine_sum frequencies t / INR (length frequencies)) <= 1.
Proof.
  intros Hne.
  assert (Hk : 0 < INR (length frequencies)).
  { apply lt_0_INR. destruct frequencies; [contradiction | simpl; lia]. }
  unfold Rdiv. rewrite Rabs_mult, (Rabs_pos_eq (/ _)).
  - pose proof (sine_fold_bound frequencies t 0) as Hb.
    rewrite Rabs_R0, Rplus_0_l in Hb. fold (sine_sum frequencies t) in Hb.
    apply Rmult_le_reg_r with (INR (length frequencies)); [exact Hk|].
    rewrite Rmult_assoc, Rinv_l by lra. lra.
  - left. apply Rinv_0_lt_compat. exact Hk.
Qed.

End ToneProperties.

Section EnvelopeProperties.

Import Tone ToneFacts.
Local Open Scope R_scope.

(** [signal[:k] *= g] *)
Lemma scale_prefix_length s g k :
  length g = k -> (k <= length s)%nat ->
  length (vmul (firstn k s) g ++ skipn k s) = length s.
Proof.
  intros Hg Hk.
  rewrite length_app, vmul_length, length_firstn, length_skipn by
    (rewrite length_firstn; lia).
  lia.
Qed.

Lemma scale_prefix_nth s g k i :
  length g = k -> (k <= length s)%nat ->
  nth i (vmul (firstn k s) g ++ skipn k s) 0
  = if (i <? k)%nat then nth i s 0 * nth i g 0 else nth i s 0.
Proof.
  intros Hg Hk.
  assert (Hf : length (firstn k s) = k) by (rewrite length_firstn; lia).
  assert (Hv : length (vmul (firstn k s) g) = k)
    by (rewrite vmul_length; lia).
  destruct (Nat.ltb_spec i k) as [Hi|Hi].
  - rewrite app_nth1 by lia.
    rewrite vmul_nth by lia.
    rewrite nth_firstn.
    destruct (Nat.ltb_spec i k); [reflexivity|lia].
  - rewrite app_nth2 by lia.
    rewrite Hv, nth_skipn. f_equal. lia.
Qed.

(** [signal[-k:] *= g], with [m] the index where the tail starts *)
Lemma scale_suffix_length s g m :
  length g = (length s - m)%nat -> (m <= length s)%nat ->
  length (firstn m s ++ vmul (skipn m s) g) = length s.
Proof.
  intros Hg Hm.
  rewrite length_app, vmul_length, length_firstn, length_skipn by
    (rewrite length_skipn; lia).
  lia.
Qed.

Lemma scale_suffix_nth s g m i :
  length g = (length s - m)%nat -> (m <= length s)%nat ->
  (i < length s)%nat ->
  nth i (firstn m s ++ vmul (skipn m s) g) 0
  = if (i <? m)%nat then nth i s 0 else nth i s 0 * nth (i - m) g 0.
Proof.
  intros Hg Hm Hi.
  assert (Hf : length (firstn m s) = m) by (rewrite length_firstn; lia).
  destruct (Nat.ltb_spec i m) as [Him|Him].
  - rewrite app_nth1 by lia. rewrite nth_firstn.
    destruct (Nat.ltb_spec i m); [reflexivity|lia].
  - rewrite app_nth2 by lia. rewrite Hf.
    rewrite vmul_nth by (rewrite length_skipn; lia).
    rewrite nth_skipn. do 2 f_equal. lia.
Qed.

(** The two ramps [linspace] builds. *)
Lemma fade_in_ramp k :
  exists g,
    linspace 0 1 (Z.of_nat k) = Ok g /\ length g = k
    /\ forall i, (i < k)%nat -> nth i g 0 = fade_in_gain k i.
Proof.
  destruct (linspace_ok 0 1 (Z.of_nat k)) as (g & Hg & Hlen & Hnth); [lia|].
  rewrite Nat2Z.id in Hlen, Hnth.
  exists g. repeat split; try assumption.
  intros i Hi. rewrite (Hnth i Hi). unfold fade_in_gain.
  destruct (Nat.ltb_spec 0 (k - 1)) as [H1|H1];
    destruct (Nat.leb_spec k 1) as [H2|H2]; try lia.
  - unfold Rdiv. ring.
  - replace i with 0%nat by lia. simpl. ring.
Qed.

Lemma fade_out_ramp k :
  exists g,
    linspace 1 0 (Z.of_nat k) = Ok g /\ length g = k
    /\ forall i, (i < k)%nat -> nth i g 0 = fade_out_gain k i.
Proof.
  destruct (linspace_ok 1 0 (Z.of_nat k)) as (g & Hg & Hlen & Hnth); [lia|].
  rewrite Nat2Z.id in Hlen, Hnth.
  exists g. repeat split; try assumption.
  intros i Hi. rewrite (Hnth i Hi). unfold fade_out_gain.
  destruct (Nat.ltb_spec 0 (k - 1)) as [H1|H1];
    destruct (Nat.leb_spec k 1) as [H2|H2]; try lia.
  - unfold Rdiv. ring.
  - replace i with 0%nat by lia. simpl. ring.
Qed.

Lemma ramp_fraction k i :
  (1 < k)%nat -> (i < k)%nat -> 0 <= INR i / INR (k - 1) <= 1.
Proof.
  intros Hk Hi.
  assert (Hpos : 0 < INR (k - 1)) by (apply lt_0_INR; lia).
  assert (Hle : INR i <= INR (k - 1)) by (apply le_INR; lia).
  assert (H0 : 0 <= INR i) by apply pos_INR.
  split.
  - apply Rmult_le_pos; [exact H0|]. left. apply Rinv_0_lt_compat. exact Hpos.
  - apply Rmult_le_reg_r with (INR (k - 1)); [exact Hpos|].
    unfold Rdiv. rewrite Rmult_assoc, Rinv_l by lra. lra.
Qed.

Lemma fade_in_gain_range k i : (i < k)%nat -> 0 <= fade_in_gain k i <= 1.
Proof.
  intros Hi. unfold fade_in_gain.
  destruct (Nat.leb_spec k 1); [lra|]. apply ramp_fraction; lia.
Qed.

Lemma fade_out_gain_range k i : (i < k)%nat -> 0 <= fade_out_gain k i <= 1.
Proof.
  intros Hi. unfold fade_out_gain.
  destruct (Nat.leb_spec k 1); [lra|].
  pose proof (ramp_fraction k i ltac:(lia) Hi). lra.
Qed.

Lemma envelope_gain_range n k i :
  (i < n)%nat -> (k <= n)%nat -> 0 <= envelope_gain n k i <= 1.
Proof.
  intros Hi Hk. unfold envelope_gain.
  destruct (Nat.ltb_spec i k); [apply fade_in_gain_range; assumption|].
  destruct (Nat.ltb_spec i (n - k)); [lra|].
  apply fade_out_gain_range. lia.
Qed.

(** The first sample of a faded tone is silenced; so is the last one
    when the fade has two samples or more. *)
Lemma envelope_gain_first n k : (0 < k)%nat -> envelope_gain n k 0 = 0.
Proof.
  intros Hk. unfold envelope_gain, fade_in_gain.
  destruct (Nat.ltb_spec 0 k); [|lia].
  destruct (Nat.leb_spec k 1); [reflexivity|]. unfold Rdiv. simpl. ring.
Qed.

Lemma envelope_gain_last n k :
  (2 <= k)%nat -> (2 * k < n)%nat -> envelope_gain n k (n - 1) = 0.
Proof.
  intros Hk Hn. unfold envelope_gain, fade_out_gain.
  destruct (Nat.ltb_spec (n - 1) k); [lia|].
  destruct (Nat.ltb_spec (n - 1) (n - k)); [lia|].
  destruct (Nat.leb_spec k 1); [lia|].
  replace (n - 1 - (n - k))%nat with (k - 1)%nat by lia.
  assert (INR (k - 1) <> 0) by (apply not_0_INR; lia).
  unfold Rdiv. rewrite Rinv_r by assumption. ring.
Qed.

(** A fade of a single sample leaves the last sample as it is. *)
Lemma envelope_gain_last_single n :
  (2 < n)%nat -> envelope_gain n 1 (n - 1) = 1.
Proof.
  intros Hn. unfold envelope_gain, fade_out_gain.
  destruct (Nat.ltb_spec (n - 1) 1); [lia|].
  destruct (Nat.ltb_spec (n - 1) (n - 1)); [lia|]. reflexivity.
Qed.

(** [apply_envelope] never raises, keeps the length, and multiplies
    each sample by its gain when the tone is long enough to be faded;
    it returns a shorter tone as it is. *)
Lemma apply_envelope_spec sample_rate signal :
  exists out,
    apply_envelope sample_rate signal = Ok out
    /\ length out = length signal
    /\ (faded sample_rate (length signal) = false -> out = signal)
    /\ (faded sample_rate (length signal) = true ->
        forall i, (i < length signal)%nat ->
          nth i out 0
          = nth i signal 0
            * envelope_gain (length signal)
                (Z.to_nat (fade_samples_of sample_rate)) i).
Proof.
  unfold apply_envelope. cbv zeta. fold (faded sample_rate (length signal)).
  destruct (faded sample_rate (length signal)) eqn:Hf.
  - unfold faded in Hf. apply andb_true_iff in Hf as [Hpos Hlong].
    apply Z.ltb_lt in Hpos, Hlong.
    set (F := fade_samples_of sample_rate) in *.
    set (k := Z.to_nat F).
    assert (HkF : F = Z.of_nat k) by (unfold k; lia).
    assert (Hk : (2 * k < length signal)%nat) by lia.
    destruct (fade_in_ramp k) as (gin & Hin & Hinl & Hinn).
    destruct (fade_out_ramp k) as (gout & Hout & Houtl & Houtn).
    rewrite HkF, Hin, Hout. cbn [Py.bind].
    set (s1 := vmul (firstn k signal) gin ++ skipn k signal).
    assert (Hs1 : length s1 = length signal)
      by (apply scale_prefix_length; lia).
    eexists. split; [reflexivity|].
    split; [|split].
    + rewrite scale_suffix_length; lia.
    + discriminate.
    + intros _ i Hi.
      rewrite scale_suffix_nth by lia.
      rewrite Hs1. unfold s1. rewrite scale_prefix_nth by lia.
      unfold envelope_gain.
      destruct (Nat.ltb_spec i (length signal - k)) as [Hm|Hm];
        destruct (Nat.ltb_spec i k) as [Hik|Hik]; try lia.
      * rewrite Hinn by exact Hik. reflexivity.
      * ring.
      * rewrite Houtn by lia. reflexivity.
  - exists signal. repeat split; try reflexivity. discriminate.
Qed.

End EnvelopeProperties.

Section GenerateToneProperties.

Import Tone ToneFacts.
Local Open Scope R_scope.

Lemma num_samples_floor duration_ms sample_rate :
  (0 < duration_ms)%Z -> (0 <= sample_rate)%Z ->
  num_samples_of duration_ms sample_rate
  = (sample_rate * duration_ms / 1000)%Z
  /\ (0 <= num_samples_of duration_ms sample_rate)%Z.
Proof.
  intros Hd Hr. unfold num_samples_of.
  rewrite Z.quot_div_nonneg by nia.
  split; [reflexivity|]. apply Z.div_pos; nia.
Qed.

Lemma envelope_gain_no_fade n i : (i < n)%nat -> envelope_gain n 0 i = 1.
Proof.
  intros Hi. unfold envelope_gain.
  destruct (Nat.ltb_spec i 0); [lia|].
  rewrite Nat.sub_0_r. destruct (Nat.ltb_spec i n); [reflexivity|lia].
Qed.

(** The time grid and the samples before the fade. *)
Lemma unfaded_tone_spec frequencies duration_ms sample_rate :
  (0 <= num_samples_of duration_ms sample_rate)%Z ->
  exists u,
    unfaded_tone frequencies duration_ms sample_rate = Ok u
    /\ length u = Z.to_nat (num_samples_of duration_ms sample_rate)
    /\ (frequencies = [] -> Forall (fun s => s = 0) u)
    /\ (frequencies <> [] ->
        forall i, (i < length u)%nat ->
          nth i u 0
          = sine_sum frequencies (sample_time duration_ms (length u) i)
            / INR (length frequencies)).
Proof.
  intros Hn. unfold unfaded_tone. cbv zeta.
  destruct (linspace_ok 0 (IZR duration_ms / 1000)
              (num_samples_of duration_ms sample_rate) Hn)
    as (t & Ht & Hlen & Hnth).
  rewrite Ht. cbn [Py.bind].
  eexists. split; [reflexivity|].
  rewrite summed_signal_length, Hlen.
  split; [reflexivity|]. split.
  - intros ->. rewrite summed_signal_empty. unfold zeros_like.
    apply Forall_map. apply Forall_forall. intros x _. reflexivity.
  - intros Hne i Hi.
    rewrite summed_signal_nth by (try assumption; lia).
    rewrite (Hnth i Hi). do 2 f_equal. unfold sample_time.
    set (n := Z.to_nat (num_samples_of duration_ms sample_rate)) in *.
    destruct (Nat.ltb_spec 0 (n - 1)); destruct (Nat.leb_spec n 1); try lia.
    + unfold Rminus. rewrite Ropp_0, Rplus_0_r, Rplus_0_l. reflexivity.
    + replace i with 0%nat by lia. simpl. ring.
Qed.

(** [generate_tone] is the unfaded tone, sample by sample under its
    gain when the tone is long enough to be faded. *)
Lemma generate_tone_spec frequencies duration_ms sample_rate :
  (0 <= num_samples_of duration_ms sample_rate)%Z ->
  exists samples u,
    generate_tone frequencies duration_ms (Some sample_rate) = Ok samples
    /\ unfaded_tone frequencies duration_ms sample_rate = Ok u
    /\ length samples = Z.to_nat (num_samples_of duration_ms sample_rate)
    /\ length u = length samples
    /\ (faded sample_rate (length samples) = false -> samples = u)
    /\ (faded sample_rate (length samples) = true ->
        forall i, (i < length samples)%nat ->
          nth i samples 0
          = nth i u 0
            * envelope_gain (length samples)
                (Z.to_nat (fade_samples_of sample_rate)) i).
Proof.
  intros Hn.
  destruct (unfaded_tone_spec frequencies duration_ms sample_rate Hn)
    as (u & Hu & Hlen & _).
  destruct (apply_envelope_spec sample_rate u) as (out & Hout & Hol & Hoff & Hon).
  exists out, u. unfold generate_tone. rewrite Hu. cbn [Py.bind].
  rewrite Hol. repeat split; try assumption; congruence.
Qed.

Lemma generate_tone_negative frequencies duration_ms sample_rate :
  (num_samples_of duration_ms sample_rate < 0)%Z ->
  generate_tone frequencies duration_ms (Some sample_rate) = Raise ValueError.
Proof.
  intros H. unfold generate_tone, unfaded_tone. cbv zeta.
  rewrite linspace_negative by exact H. reflexivity.
Qed.

(** Every sample of a tone of one frequency or more lies in [-1, 1]. *)
Lemma generate_tone_range frequencies duration_ms sample_rate samples :
  frequencies <> [] ->
  (0 <= sample_rate)%Z ->
  (0 <= num_samples_of duration_ms sample_rate)%Z ->
  generate_tone frequencies duration_ms (Some sample_rate) = Ok samples ->
  Forall (fun s => -1 <= s <= 1) samples.
Proof.
  intros Hne Hr Hn Hgen.
  destruct (generate_tone_spec frequencies duration_ms sample_rate Hn)
    as (out & u & Hout & Hu & Hlen & Hul & Hoff & Hon).
  rewrite Hgen in Hout. inversion Hout; subst out. clear Hout.
  destruct (unfaded_tone_spec frequencies duration_ms sample_rate Hn)
    as (u' & Hu' & _ & _ & Hnth).
  rewrite Hu in Hu'. inversion Hu'; subst u'. clear Hu'.
  specialize (Hnth Hne).
  assert (Hbound : forall i, (i < length u)%nat -> Rabs (nth i u 0) <= 1).
  { intros i Hi. rewrite (Hnth i Hi). apply sine_sum_normalised. exact Hne. }
  apply Forall_nth. intros i d Hi.
  rewrite (nth_indep _ d 0) by exact Hi.
  destruct (faded sample_rate (length samples)) eqn:Hf.
  - rewrite (Hon eq_refl i Hi).
    assert (Hk : (Z.to_nat (fade_samples_of sample_rate) <= length samples)%nat).
    { unfold faded in Hf. apply andb_true_iff in Hf as [_ Hl].
      apply Z.ltb_lt in Hl. lia. }
    pose proof (envelope_gain_range (length samples)
                  (Z.to_nat (fade_samples_of sample_rate)) i Hi Hk) as [Hg0 Hg1].
    pose proof (Hbound i ltac:(lia)) as Hb. apply abs_le_interval in Hb.
    set (x := nth i u 0) in *.
    set (g := envelope_gain _ _ i) in *.
    split; nra.
  - rewrite (Hoff eq_refl). rewrite (Hoff eq_refl) in Hi.
    apply abs_le_interval. apply Hbound. exact Hi.
Qed.

End GenerateToneProperties.




(** C6, as stated, fails twice. The length is truncated: 15 ms at
    44100 Hz is 661.5 samples and the buffer has 661, where [round]
    gives 662. And a fade of a single sample does not silence the end
    of the tone: 20 ms of 12.5 Hz at 150 samples per second is 3
    samples, more than twice the fade of 1 sample, so the fade is
    applied; its fade-out ramp is the single value 1 and the last
    sample is [sin(pi/2)] = 1, far above 0.01. *)
Lemma tone_length_and_single_sample_fade :
  (exists samples,
     Tone.generate_tone [440%R] 15 (Some 44100%Z) = Ok samples
     /\ length samples = 661%nat
     /\ py_round (44100 * 15) 1000 = 662%Z)
  /\ (exists samples,
        Tone.generate_tone [(25 / 2)%R] 20 (Some 150%Z) = Ok samples
        /\ length samples = 3%nat
        /\ ToneFacts.faded 150 3 = true
        /\ nth 2 samples 0%R = 1%R
        /\ ~ (Rabs (nth 2 samples 0%R) < 1 / 100)%R).
Proof.
  split.
  - destruct (generate_tone_spec [440%R] 15 44100)
      as (samples & u & Hs & _ & Hlen & _).
    { vm_compute. discriminate. }
    exists samples. split; [exact Hs|]. split; [|reflexivity].
    rewrite Hlen. reflexivity.
  - destruct (generate_tone_spec [(25 / 2)%R] 20 150)
      as (samples & u & Hs & Hu & Hlen & Hul & _ & Hon).
    { vm_compute. discriminate. }
    destruct (unfaded_tone_spec [(25 / 2)%R] 20 150)
      as (u' & Hu' & _ & _ & Hnth).
    { vm_compute. discriminate. }
    rewrite Hu in Hu'. inversion Hu'; subst u'. clear Hu'.
    assert (Hl : length samples = 3%nat) by (rewrite Hlen; reflexivity).
    assert (Hlu : length u = 3%nat) by congruence.
    exists samples. split; [exact Hs|]. split; [exact Hl|].
    split; [reflexivity|].
    assert (H2 : nth 2 samples 0%R = 1%R).
    { rewrite Hl in Hon. rewrite (Hon eq_refl 2%nat) by lia.
      change (Z.to_nat (Tone.fade_samples_of 150)) with 1%nat.
      assert (Hg : ToneFacts.envelope_gain 3 1 2 = 1%R)
        by (apply (envelope_gain_last_single 3); lia).
      rewrite Hg.
      rewrite (Hnth ltac:(discriminate) 2%nat) by lia.
      rewrite Hlu. unfold ToneFacts.sine_sum, ToneFacts.sample_time.
      cbn [fold_left Nat.leb Nat.sub length].
      replace (2 * PI * (25 / 2) * (INR 2 * (20 / 1000 / INR 2)))%R
        with (PI / 2)%R by (simpl; field).
      rewrite sin_PI2. simpl. field. }
    split; [exact H2|].
    rewrite H2, Rabs_R1. lra.
Qed.

(** C6, amended. For one frequency, a duration [d > 0] and a sample
    rate [r >= 0] the buffer has [n = floor(r*d/1000)] samples, all in
    [-1, 1]. With [k = floor(r/100)] the number of samples in 10 ms:
    if [n <= 2k] the tone is returned unfaded; if [n > 2k] every sample
    is the unfaded one times a gain that rises linearly from 0 to 1
    over the first [k] samples, is 1 in the middle and falls linearly
    from 1 to 0 over the last [k]. So the first sample of a faded tone
    is 0 when [k >= 1], and the last is 0 when [k >= 2]. *)
Theorem single_tone_fade :
  forall f duration_ms sample_rate,
    (0 < duration_ms)%Z -> (0 <= sample_rate)%Z ->
    exists samples u,
      Tone.generate_tone [f] duration_ms (Some sample_rate) = Ok samples
      /\ Tone.unfaded_tone [f] duration_ms sample_rate = Ok u
      /\ length samples = Z.to_nat (sample_rate * duration_ms / 1000)
      /\ length u = length samples
      /\ Forall (fun s => (-1 <= s <= 1)%R) samples
      /\ ((Z.of_nat (length samples) <= 2 * (sample_rate / 100))%Z ->
          samples = u)
      /\ ((2 * (sample_rate / 100) < Z.of_nat (length samples))%Z ->
          (forall i, (i < length samples)%nat ->
             nth i samples 0%R
             = (nth i u 0%R
                * ToneFacts.envelope_gain (length samples)
                    (Z.to_nat (sample_rate / 100)) i)%R)
          /\ ((1 <= sample_rate / 100)%Z -> nth 0 samples 0%R = 0%R)
          /\ ((2 <= sample_rate / 100)%Z ->
              nth (length samples - 1) samples 0%R = 0%R)).
Proof.
  intros f duration_ms sample_rate Hd Hr.
  destruct (num_samples_floor duration_ms sample_rate Hd Hr) as [Hfloor Hn].
  destruct (generate_tone_spec [f] duration_ms sample_rate Hn)
    as (samples & u & Hs & Hu & Hlen & Hul & Hoff & Hon).
  assert (HF : Tone.fade_samples_of sample_rate = (sample_rate / 100)%Z).
  { unfold Tone.fade_samples_of. apply Z.quot_div_nonneg; lia. }
  assert (HF0 : (0 <= sample_rate / 100)%Z) by (apply Z.div_pos; lia).
  exists samples, u. rewrite <- Hfloor.
  split; [exact Hs|]. split; [exact Hu|]. split; [exact Hlen|].
  split; [exact Hul|]. split; [|split].
  - apply (generate_tone_range [f] duration_ms sample_rate samples);
      try assumption. discriminate.
  - intros Hshort. apply Hoff. unfold ToneFacts.faded. rewrite HF.
    apply andb_false_iff. right. apply Z.ltb_ge. exact Hshort.
  - intros Hlong.
    assert (Hgain : forall i, (i < length samples)%nat ->
              nth i samples 0%R
              = (nth i u 0%R
                 * ToneFacts.envelope_gain (length samples)
                     (Z.to_nat (sample_rate / 100)) i)%R).
    { intros i Hi.
      destruct (ToneFacts.faded sample_rate (length samples)) eqn:Hf.
      - rewrite (Hon eq_refl i Hi), HF. reflexivity.
      - rewrite (Hoff eq_refl).
        unfold ToneFacts.faded in Hf. rewrite HF in Hf.
        apply andb_false_iff in Hf as [Hf|Hf].
        + apply Z.ltb_ge in Hf.
          replace (sample_rate / 100)%Z with 0%Z by lia.
          change (Z.to_nat 0) with 0%nat.
          rewrite envelope_gain_no_fade by (rewrite Hul; exact Hi). ring.
        + apply Z.ltb_ge in Hf. lia. }
    split; [exact Hgain|]. split.
    + intros Hk. rewrite Hgain by lia.
      rewrite envelope_gain_first by lia. ring.
    + intros Hk. rewrite Hgain by lia.
      rewrite envelope_gain_last by lia. ring.
Qed.

Lemma single_tone_fade_witness :
  (0 < 100)%Z /\ (0 <= 44100)%Z
  /\ exists samples,
       Tone.generate_tone [440%R] 100 (Some 44100%Z) = Ok samples
       /\ length samples = 4410%nat
       /\ Forall (fun s => (-1 <= s <= 1)%R) samples
       /\ nth 0 samples 0%R = 0%R
       /\ nth 4409 samples 0%R = 0%R.
Proof.
  assert (Hd : (0 < 100)%Z) by lia.
  assert (Hr : (0 <= 44100)%Z) by lia.
  split; [exact Hd|]. split; [exact Hr|].
  destruct (single_tone_fade 440%R 100 44100 Hd Hr)
    as (samples & u & Hs & _ & Hlen & _ & Hrange & _ & Hfade).
  assert (Hl : length samples = 4410%nat) by (rewrite Hlen; reflexivity).
  exists samples. split; [exact Hs|]. split; [exact Hl|].
  split; [exact Hrange|].
  rewrite Hl in Hfade.
  destruct Hfade as (_ & Hfirst & Hlast).
  { vm_compute. reflexivity. }
  split.
  - apply Hfirst. vm_compute. discriminate.
  - apply Hlast. vm_compute. discriminate.
Defined.

(* ================================================================== *)
(** * Configuration *)
(* ================================================================== *)

Section ConfigurationFacts.

(** Rendering a tone of a duration [d] with [sample_rate * d <= -1000]
    fails in [np.linspace], whatever the frequencies. *)
Lemma render_negative_duration frequencies duration_ms sample_rate :
  (sample_rate * duration_ms <= -1000)%Z ->
  Tone.generate_tone frequencies duration_ms (Some sample_rate)
  = Raise ValueError.
Proof.
  intros H. apply generate_tone_negative. unfold Tone.num_samples_of.
  Z.quot_rem_to_equations. lia.
Qed.

End ConfigurationFacts.




(* ================================================================== *)
(** * Further properties of the dual-tone encoder *)
(* ================================================================== *)

Section DTMFFurther.

Import DTMF DTMFFacts.
Local Open Scope Z_scope.

(** [encode] as one [flat_map] over the text. *)
Lemma encode_flat_map self T :
  encode self T
  = Ok {| tones := flat_map (fun c => map (tone_for self) (symbols_of c)) T;
          original_text := T |}.
Proof.
  unfold encode.
  assert (H : forall tones0,
    for_each T
      (fun tones char =>
         Py.bind (_char_to_dtmf_symbols self char)
           (fun symbols =>
              for_each symbols
                (fun tones symbol =>
                   Py.bind (_symbol_to_frequencies self symbol)
                     (fun frequencies =>
                        Ok (tones ++
                              [ {| frequencies := frequencies;
                                   duration_ms := tone_duration_ms self |} ])))
                tones))
      tones0
    = Ok (tones0
          ++ flat_map (fun c => map (tone_for self) (symbols_of c)) T)).
  { induction T as [|c T IH]; intros tones0.
    - simpl. rewrite app_nil_r. reflexivity.
    - destruct (symbols_of_digits c) as (ds & Hs & Hsp).
      cbn [for_each flat_map]. rewrite char_to_dtmf_symbols_total.
      cbn [Py.bind]. rewrite Hs, symbols_loop by apply Hsp.
      cbn [Py.bind]. rewrite IH, map_map, app_assoc. reflexivity. }
  rewrite H. reflexivity.
Qed.

Lemma digits_spelled_length c ds :
  digits_spelled c ds ->
  (2 <= length ds)%nat /\ (length ds = 2%nat <-> ord c <= 255).
Proof.
  intros (Hds & Hval & Hlen & Hbyte). split; [exact Hlen|]. split.
  - intros H2. pose proof (value_of_bound ds Hds) as Hb.
    rewrite Hval, H2 in Hb. change (16 ^ Z.of_nat 2) with 256 in Hb. lia.
  - intros Hc. rewrite (Hbyte Hc). reflexivity.
Qed.

Lemma concat_length_spelled (T : text) dss :
  Forall2 digits_spelled T dss ->
  (2 * length T <= length (concat dss))%nat
  /\ (length (concat dss) = (2 * length T)%nat
      <-> Forall (fun c => ord c <= 255) T).
Proof.
  induction 1 as [|c ds T dss Hsp _ IH].
  - simpl. split; [lia|]. split; [constructor | reflexivity].
  - destruct (digits_spelled_length c ds Hsp) as [H2 Hiff].
    destruct IH as [IHle IHiff].
    cbn [concat length]. rewrite length_app. split; [lia|]. split.
    + intros Heq. constructor.
      * apply Hiff. lia.
      * apply IHiff. lia.
    + intros HF. apply Forall_cons_iff in HF as [Hc HT].
      apply Hiff in Hc. apply IHiff in HT. lia.
Qed.

(** The chord of a digit reads back as the digit. *)
Lemma digit_of_chord_tone self d :
  is_digit d ->
  DTMFDecode.digit_of_chord (frequencies (tone_of_digit self d)) = Some d.
Proof.
  intros H. unfold is_digit in H.
  assert (d = 0 \/ d = 1 \/ d = 2 \/ d = 3 \/ d = 4 \/ d = 5 \/ d = 6
          \/ d = 7 \/ d = 8 \/ d = 9 \/ d = 10 \/ d = 11 \/ d = 12
          \/ d = 13 \/ d = 14 \/ d = 15) as Hcases by lia.
  clear H.
  repeat (destruct Hcases as [-> | Hcases]); [.. | subst d];
    vm_compute; reflexivity.
Qed.

Lemma decode_spelled self (T : text) dss :
  Forall2 digits_spelled T dss ->
  Forall (fun c => ord c <= 255) T ->
  DTMFDecode.decode (map (tone_of_digit self) (concat dss)) = Some T.
Proof.
  induction 1 as [|c ds T dss Hsp _ IH]; intros HT.
  - reflexivity.
  - apply Forall_cons_iff in HT as [Hc HT].
    destruct Hsp as (_ & _ & _ & Hbyte). rewrite (Hbyte Hc).
    cbn [concat app map DTMFDecode.decode].
    assert (Hc0 : 0 <= ord c) by (unfold ord; lia).
    assert (Hhi : is_digit (ord c / 16))
      by (unfold is_digit; Z.div_mod_to_equations; lia).
    assert (Hlo : is_digit (ord c mod 16))
      by (unfold is_digit; Z.div_mod_to_equations; lia).
    rewrite (digit_of_chord_tone self _ Hhi), (digit_of_chord_tone self _ Hlo).
    rewrite (IH HT).
    assert (Hz : Z.to_N (16 * (ord c / 16) + ord c mod 16) = c).
    { rewrite <- Z.div_mod by lia. unfold ord. apply N2Z.id. }
    rewrite Hz. reflexivity.
Qed.

(** Four hex digits, when the number needs exactly four. *)
Lemma format_x_four n :
  4096 <= n < 65536 ->
  format_x n
  = [hex_digit (n / 4096); hex_digit (n / 256 mod 16);
     hex_digit (n / 16 mod 16); hex_digit (n mod 16)].
Proof.
  intros Hn. unfold format_x.
  assert (Hlog : 12 <= Z.log2 n).
  { change 12 with (Z.log2 4096). apply Z.log2_le_mono. lia. }
  destruct (Z.to_nat (Z.log2 n)) as [|[|[|fuel]]] eqn:E; try lia.
  assert (E1 : (n / 16 =? 0) = false)
    by (apply Z.eqb_neq; Z.div_mod_to_equations; lia).
  assert (E2 : (n / 16 / 16 =? 0) = false)
    by (apply Z.eqb_neq; Z.div_mod_to_equations; lia).
  assert (E3 : (n / 16 / 16 / 16 =? 0) = false)
    by (apply Z.eqb_neq; Z.div_mod_to_equations; lia).
  assert (E4 : (n / 16 / 16 / 16 / 16 =? 0) = true)
    by (apply Z.eqb_eq; Z.div_mod_to_equations; lia).
  cbn [hex_digits]. rewrite E1, E2, E3, E4.
  assert (D3 : n / 16 / 16 / 16 mod 16 = n / 4096)
    by (Z.div_mod_to_equations; lia).
  assert (D2 : n / 16 / 16 mod 16 = n / 256 mod 16)
    by (Z.div_mod_to_equations; lia).
  rewrite D3, D2. reflexivity.
Qed.

Lemma format_02x_four n :
  4096 <= n < 65536 ->
  format_02x n = format_02x (n / 256) ++ format_02x (n mod 256).
Proof.
  intros Hn.
  rewrite (format_02x_byte (n / 256)) by (Z.div_mod_to_equations; lia).
  rewrite (format_02x_byte (n mod 256)) by (Z.div_mod_to_equations; lia).
  unfold format_02x. destruct (Z.ltb_spec n 0) as [|_]; [lia|].
  rewrite format_x_four by exact Hn. cbn [length Nat.sub repeat app].
  assert (D3 : n / 256 / 16 = n / 4096) by (Z.div_mod_to_equations; lia).
  assert (D2 : n / 256 mod 16 = n / 256 mod 16) by reflexivity.
  assert (D1 : n mod 256 / 16 = n / 16 mod 16)
    by (Z.div_mod_to_equations; lia).
  assert (D0 : n mod 256 mod 16 = n mod 16)
    by (Z.div_mod_to_equations; lia).
  rewrite D3, D1, D0. reflexivity.
Qed.

Lemma existsb_eqb_In (s : ascii) l :
  existsb (Ascii.eqb s) l = true <-> In s l.
Proof.
  rewrite existsb_exists. split.
  - intros (x & Hx & He). apply Ascii.eqb_eq in He. subst. exact Hx.
  - intros H. exists s. split; [exact H | apply Ascii.eqb_refl].
Qed.

Lemma symbol_to_frequencies_cases self s :
  _symbol_to_frequencies self s
  = if existsb (Ascii.eqb s) Keypad.symbols
    then Ok (frequencies (tone_for self s))
    else Raise KeyError.
Proof. destruct s as [[] [] [] [] [] [] [] []]; reflexivity. Qed.

Lemma tone_for_dual self s :
  existsb (Ascii.eqb s) Keypad.symbols = true -> dual_tone (tone_for self s).
Proof.
  unfold dual_tone.
  destruct s as [[] [] [] [] [] [] [] []]; cbn; intros H;
    try discriminate H;
    (eexists; eexists; split; [reflexivity|]; split; vm_compute; tauto).
Qed.

End DTMFFurther.

(** X1: whatever the text, the dual-tone frame has at least two tone
    events per character, and exactly two per character if and only if
    every code point is at most 255. *)
Theorem dtmf_frame_length :
  forall self T,
    exists frame,
      DTMF.encode self T = Ok frame
      /\ (2 * length T <= length (tones frame))%nat
      /\ (length (tones frame) = (2 * length T)%nat
          <-> Forall (fun c => (ord c <= 255)%Z) T).
Proof.
  intros self T.
  destruct (encode_tones self T) as (dss & HF & Heq).
  eexists. split; [exact Heq|]. cbn [tones]. rewrite length_map.
  apply concat_length_spelled. exact HF.
Qed.

(** X2: the three encoders work character by character: the tones of a
    concatenation are the tones of its parts, one after the other. *)
Theorem encode_concatenation :
  (forall self T1 T2,
     exists f1 f2 f,
       DTMF.encode self T1 = Ok f1 /\ DTMF.encode self T2 = Ok f2
       /\ DTMF.encode self (T1 ++ T2) = Ok f
       /\ tones f = tones f1 ++ tones f2
       /\ original_text f = original_text f1 ++ original_text f2)
  /\ (forall self T1 T2,
        exists f1 f2 f,
          FSK.encode self T1 = Ok f1 /\ FSK.encode self T2 = Ok f2
          /\ FSK.encode self (T1 ++ T2) = Ok f
          /\ tones f = tones f1 ++ tones f2
          /\ original_text f = original_text f1 ++ original_text f2)
  /\ (forall self T1 T2,
        exists f1 f2 f,
          Ultrasonic.encode self T1 = Ok f1
          /\ Ultrasonic.encode self T2 = Ok f2
          /\ Ultrasonic.encode self (T1 ++ T2) = Ok f
          /\ tones f = tones f1 ++ tones f2
          /\ original_text f = original_text f1 ++ original_text f2).
Proof.
  split; [|split]; intros self T1 T2; do 3 eexists.
  - rewrite !encode_flat_map. repeat split. cbn [tones].
    apply flat_map_app.
  - rewrite !fsk_encode_map. repeat split. cbn [tones]. apply map_app.
  - rewrite !ultrasonic_encode_map. repeat split. cbn [tones].
    apply map_app.
Qed.

(** X3: on texts of code points up to 255 the dual-tone encoding can be
    read back: pairing the chords and looking each one up on the keypad
    returns the text. Hence two such texts with the same tones are the
    same text. *)
Theorem dtmf_round_trip :
  forall self T,
    Forall (fun c => (ord c <= 255)%Z) T ->
    exists frame,
      DTMF.encode self T = Ok frame
      /\ DTMFDecode.decode (tones frame) = Some T
      /\ forall T' frame',
           Forall (fun c => (ord c <= 255)%Z) T' ->
           DTMF.encode self T' = Ok frame' ->
           tones frame' = tones frame -> T' = T.
Proof.
  intros self T HT.
  destruct (encode_tones self T) as (dss & HF & Heq).
  eexists. split; [exact Heq|]. cbn [tones].
  pose proof (decode_spelled self T dss HF HT) as Hdec.
  split; [exact Hdec|].
  intros T' frame' HT' Heq' Htones.
  destruct (encode_tones self T') as (dss' & HF' & Heq'').
  rewrite Heq' in Heq''. inversion Heq''; subst frame'. clear Heq''.
  cbn [tones] in Htones.
  pose proof (decode_spelled self T' dss' HF' HT') as Hdec'.
  rewrite Htones, Hdec in Hdec'. congruence.
Qed.

Lemma dtmf_round_trip_witness :
  Forall (fun c => (ord c <= 255)%Z) [72%N; 105%N]
  /\ exists frame,
       DTMF.encode {| DTMF.tone_duration_ms := 100 |} [72%N; 105%N] = Ok frame
       /\ DTMFDecode.decode (tones frame) = Some [72%N; 105%N].
Proof.
  assert (H : Forall (fun c => (ord c <= 255)%Z) [72%N; 105%N])
    by (repeat constructor; vm_compute; discriminate).
  split; [exact H|].
  destruct (dtmf_round_trip {| DTMF.tone_duration_ms := 100 |} _ H)
    as (frame & He & Hd & _).
  exists frame. split; [exact He | exact Hd].
Defined.

(** X4: beyond 255 the dual-tone encoding is ambiguous. A character
    whose code point has four hex digits (4096 to 65535) gives exactly
    the tones of the two-character text made of its high and its low
    byte. *)
Theorem dtmf_four_digit_character_is_two_bytes :
  forall self c,
    (4096 <= ord c < 65536)%Z ->
    exists f f',
      DTMF.encode self [c] = Ok f
      /\ DTMF.encode self [(c / 256)%N; (c mod 256)%N] = Ok f'
      /\ tones f = tones f'
      /\ length (tones f) = 4%nat.
Proof.
  intros self c Hc. do 2 eexists. rewrite !encode_flat_map.
  split; [reflexivity|]. split; [reflexivity|]. cbn [tones flat_map].
  rewrite !app_nil_r, <- map_app.
  unfold DTMFFacts.symbols_of. rewrite <- map_app.
  assert (Hhi : ord (c / 256)%N = (ord c / 256)%Z)
    by (unfold ord; apply N2Z.inj_div).
  assert (Hlo : ord (c mod 256)%N = (ord c mod 256)%Z)
    by (unfold ord; apply N2Z.inj_mod).
  rewrite Hhi, Hlo, <- format_02x_four by exact Hc.
  split; [reflexivity|].
  rewrite !length_map. unfold format_02x.
  destruct (Z.ltb_spec (ord c) 0) as [|_]; [lia|].
  rewrite format_x_four by exact Hc. reflexivity.
Qed.

Lemma dtmf_four_digit_character_is_two_bytes_witness :
  (4096 <= ord 8364%N < 65536)%Z
  /\ exists f f',
       DTMF.encode {| DTMF.tone_duration_ms := 100 |} [8364%N] = Ok f
       /\ DTMF.encode {| DTMF.tone_duration_ms := 100 |} [32%N; 172%N] = Ok f'
       /\ tones f = tones f'.
Proof.
  assert (H : (4096 <= ord 8364%N < 65536)%Z)
    by (split; vm_compute; [discriminate | reflexivity]).
  split; [exact H|].
  destruct (dtmf_four_digit_character_is_two_bytes
              {| DTMF.tone_duration_ms := 100 |} 8364%N H)
    as (f & f' & Hf & Hf' & Ht & _).
  exists f, f'. split; [exact Hf|]. split; [exact Hf' | exact Ht].
Defined.

(** X5: [_symbol_to_frequencies] knows the sixteen keypad symbols and
    nothing else: on one of them it returns a low and a high frequency
    of the two bands, on any other character the lookup raises
    [KeyError]. *)
Theorem symbol_to_frequencies_domain :
  forall self s,
    (In s Keypad.symbols ->
     exists lo hi,
       DTMF._symbol_to_frequencies self s = Ok [lo; hi]
       /\ In lo DTMFFacts.low_set /\ In hi DTMFFacts.high_set)
    /\ (~ In s Keypad.symbols ->
        DTMF._symbol_to_frequencies self s = Raise KeyError).
Proof.
  intros self s. rewrite symbol_to_frequencies_cases. split.
  - intros Hin. apply existsb_eqb_In in Hin. rewrite Hin.
    destruct (tone_for_dual self s Hin) as (lo & hi & Hfr & Hlo & Hhi).
    exists lo, hi. rewrite Hfr. repeat split; assumption.
  - intros Hnot.
    destruct (existsb (Ascii.eqb s) Keypad.symbols) eqn:E; [|reflexivity].
    apply existsb_eqb_In in E. contradiction.
Qed.

Lemma symbol_to_frequencies_domain_witness :
  (exists lo hi,
     DTMF._symbol_to_frequencies {| DTMF.tone_duration_ms := 100 |} "#"%char
     = Ok [lo; hi])
  /\ DTMF._symbol_to_frequencies {| DTMF.tone_duration_ms := 100 |} "E"%char
     = Raise KeyError.
Proof.
  split.
  - destruct (proj1 (symbol_to_frequencies_domain
                       {| DTMF.tone_duration_ms := 100 |} "#"%char))
      as (lo & hi & H & _).
    { vm_compute. tauto. }
    exists lo, hi. exact H.
  - apply (proj2 (symbol_to_frequencies_domain
                    {| DTMF.tone_duration_ms := 100 |} "E"%char)).
    vm_compute. intuition discriminate.
Defined.

(* ================================================================== *)
(** * Further properties of the single-tone encoders *)
(* ================================================================== *)

Section SingleToneFurther.

Local Open Scope Z_scope.

Lemma all_from_spec p count : forall start z,
  Binary64.all_from p start count = true ->
  start <= z < start + Z.of_nat count -> p z = true.
Proof.
  induction count as [|count IH]; intros start z Hall Hz.
  - lia.
  - cbn [Binary64.all_from] in Hall.
    apply andb_true_iff in Hall as [Hp Hrest].
    destruct (Z.eq_dec z start) as [->|Hne]; [exact Hp|].
    apply (IH (start + 1)); [exact Hrest | lia].
Qed.

(** The audible and the ultrasonic line, on clamped codes. *)
Lemma fsk_frequency_of_code self c :
  ord c <= 255 ->
  FSK._char_to_frequency self c
  = (400 + float_of_int (ord c) / 255 * 1600)%float.
Proof.
  intros Hc. rewrite fsk_char_to_frequency.
  replace (Z.min (ord c) 255) with (ord c) by lia. reflexivity.
Qed.

Lemma ultrasonic_frequency_of_code self c :
  ord c <= 255 ->
  Ultrasonic._char_to_frequency self c
  = (15000 + float_of_int (ord c) / 255 * 5000)%float.
Proof.
  intros Hc. rewrite ultrasonic_char_to_frequency.
  replace (Z.min (ord c) 255) with (ord c) by lia. reflexivity.
Qed.

(** All pairs of codes, compared in binary64. *)
Lemma audible_line_increasing :
  Binary64.all_from
    (fun x =>
       Binary64.all_from
         (fun y =>
            if x <? y
            then PrimFloat.ltb (400 + float_of_int x / 255 * 1600)
                   (400 + float_of_int y / 255 * 1600)
            else true)
         0 256)
    0 256 = true.
Proof. vm_compute. reflexivity. Qed.

Lemma ultrasonic_line_increasing :
  Binary64.all_from
    (fun x =>
       Binary64.all_from
         (fun y =>
            if x <? y
            then PrimFloat.ltb (15000 + float_of_int x / 255 * 5000)
                   (15000 + float_of_int y / 255 * 5000)
            else true)
         0 256)
    0 256 = true.
Proof. vm_compute. reflexivity. Qed.

Lemma lines_in_band :
  Binary64.all_from
    (fun z =>
       PrimFloat.leb 400 (400 + float_of_int z / 255 * 1600)
       && PrimFloat.leb (400 + float_of_int z / 255 * 1600) 2000
       && PrimFloat.leb 15000 (15000 + float_of_int z / 255 * 5000)
       && PrimFloat.leb (15000 + float_of_int z / 255 * 5000) 20000
       && negb (PrimFloat.ltb (400 + float_of_int z / 255 * 1600)
                  (400 + float_of_int z / 255 * 1600))
       && negb (PrimFloat.ltb (15000 + float_of_int z / 255 * 5000)
                  (15000 + float_of_int z / 255 * 5000)))
    0 256 = true.
Proof. vm_compute. reflexivity. Qed.

Lemma audible_increasing x y :
  0 <= x -> x < y -> y <= 255 ->
  PrimFloat.ltb (400 + float_of_int x / 255 * 1600)
    (400 + float_of_int y / 255 * 1600) = true.
Proof.
  intros Hx Hxy Hy.
  pose proof (all_from_spec _ _ 0 x audible_line_increasing ltac:(lia)) as H.
  cbv beta in H.
  pose proof (all_from_spec _ _ 0 y H ltac:(lia)) as H'.
  cbv beta in H'. destruct (Z.ltb_spec x y); [exact H' | lia].
Qed.

Lemma ultrasonic_increasing x y :
  0 <= x -> x < y -> y <= 255 ->
  PrimFloat.ltb (15000 + float_of_int x / 255 * 5000)
    (15000 + float_of_int y / 255 * 5000) = true.
Proof.
  intros Hx Hxy Hy.
  pose proof (all_from_spec _ _ 0 x ultrasonic_line_increasing ltac:(lia))
    as H.
  cbv beta in H.
  pose proof (all_from_spec _ _ 0 y H ltac:(lia)) as H'.
  cbv beta in H'. destruct (Z.ltb_spec x y); [exact H' | lia].
Qed.

Lemma line_facts z :
  0 <= z <= 255 ->
  PrimFloat.leb 400 (400 + float_of_int z / 255 * 1600) = true
  /\ PrimFloat.leb (400 + float_of_int z / 255 * 1600) 2000 = true
  /\ PrimFloat.leb 15000 (15000 + float_of_int z / 255 * 5000) = true
  /\ PrimFloat.leb (15000 + float_of_int z / 255 * 5000) 20000 = true
  /\ PrimFloat.ltb (400 + float_of_int z / 255 * 1600)
       (400 + float_of_int z / 255 * 1600) = false
  /\ PrimFloat.ltb (15000 + float_of_int z / 255 * 5000)
       (15000 + float_of_int z / 255 * 5000) = false.
Proof.
  intros Hz.
  pose proof (all_from_spec _ _ 0 z lines_in_band ltac:(lia)) as H.
  cbv beta in H.
  repeat (apply andb_true_iff in H; destruct H as [H ?]).
  repeat split; try assumption; apply negb_true_iff; assumption.
Qed.

Lemma ord_inj a b : ord a = ord b -> a = b.
Proof. unfold ord. apply N2Z.inj. Qed.

Lemma playback_time_uniform d tones : forall acc,
  Forall (fun ev => duration_ms ev = d) tones ->
  fold_left (fun acc tone => acc + duration_ms tone) tones acc
  = acc + Z.of_nat (length tones) * d.
Proof.
  induction tones as [|ev tones IH]; intros acc H.
  - simpl. lia.
  - apply Forall_cons_iff in H as [Hev H].
    cbn [fold_left length]. rewrite (IH _ H), Hev. lia.
Qed.

End SingleToneFurther.

(** X6: on code points up to 255 both single-tone mappings are strictly
    increasing in binary64, so different characters get different
    frequencies. *)
Theorem single_tone_strictly_increasing :
  forall (audible : FSK.FSKEncoder) (ultrasonic : Ultrasonic.UltrasonicEncoder)
         a b,
    (ord a < ord b)%Z -> (ord b <= 255)%Z ->
    (FSK._char_to_frequency audible a
     <? FSK._char_to_frequency audible b)%float = true
    /\ (Ultrasonic._char_to_frequency ultrasonic a
        <? Ultrasonic._char_to_frequency ultrasonic b)%float = true
    /\ FSK._char_to_frequency audible a <> FSK._char_to_frequency audible b
    /\ Ultrasonic._char_to_frequency ultrasonic a
       <> Ultrasonic._char_to_frequency ultrasonic b.
Proof.
  intros audible ultrasonic a b Hab Hb.
  assert (Ha0 : (0 <= ord a)%Z) by (unfold ord; lia).
  rewrite !fsk_frequency_of_code, !ultrasonic_frequency_of_code by lia.
  pose proof (audible_increasing (ord a) (ord b) Ha0 Hab Hb) as H1.
  pose proof (ultrasonic_increasing (ord a) (ord b) Ha0 Hab Hb) as H2.
  destruct (line_facts (ord b) ltac:(lia)) as (_ & _ & _ & _ & I1 & I2).
  split; [exact H1|]. split; [exact H2|]. split.
  - intros Heq. rewrite Heq in H1. rewrite H1 in I1. discriminate.
  - intros Heq. rewrite Heq in H2. rewrite H2 in I2. discriminate.
Qed.

Lemma single_tone_strictly_increasing_witness :
  (ord 65%N < ord 122%N)%Z /\ (ord 122%N <= 255)%Z
  /\ (FSK._char_to_frequency {| FSK.tone_duration_ms := 100 |} 65%N
      <? FSK._char_to_frequency {| FSK.tone_duration_ms := 100 |} 122%N)%float
     = true.
Proof.
  assert (H1 : (ord 65%N < ord 122%N)%Z) by (vm_compute; reflexivity).
  assert (H2 : (ord 122%N <= 255)%Z) by (vm_compute; discriminate).
  split; [exact H1|]. split; [exact H2|].
  exact (proj1 (single_tone_strictly_increasing
                  {| FSK.tone_duration_ms := 100 |}
                  {| Ultrasonic.tone_duration_ms := 5 |} 65%N 122%N H1 H2)).
Defined.

(** X7: for every text the single-tone frames have one tone event per
    character, each with a single frequency inside the band of the
    encoder: 400 to 2000 Hz audible, 15000 to 20000 Hz ultrasonic; this
    for every code point, those above 255 included. *)
Theorem single_tone_frame_in_band :
  (forall self T,
     exists frame,
       FSK.encode self T = Ok frame
       /\ length (tones frame) = length T
       /\ Forall (fun ev =>
                    exists f, frequencies ev = [f]
                              /\ (400 <=? f)%float = true
                              /\ (f <=? 2000)%float = true)
            (tones frame))
  /\ (forall self T,
        exists frame,
          Ultrasonic.encode self T = Ok frame
          /\ length (tones frame) = length T
          /\ Forall (fun ev =>
                       exists f, frequencies ev = [f]
                                 /\ (15000 <=? f)%float = true
                                 /\ (f <=? 20000)%float = true)
               (tones frame)).
Proof.
  split; intros self T.
  - rewrite fsk_encode_map. eexists. split; [reflexivity|]. cbn [tones].
    split; [apply length_map|].
    apply Forall_map. apply Forall_forall. intros c _. cbn [frequencies].
    eexists. split; [reflexivity|]. rewrite fsk_char_to_frequency.
    destruct (line_facts (Z.min (ord c) 255)) as (H1 & H2 & _).
    { unfold ord. lia. }
    split; assumption.
  - rewrite ultrasonic_encode_map. eexists. split; [reflexivity|].
    cbn [tones]. split; [apply length_map|].
    apply Forall_map. apply Forall_forall. intros c _. cbn [frequencies].
    eexists. split; [reflexivity|]. rewrite ultrasonic_char_to_frequency.
    destruct (line_facts (Z.min (ord c) 255)) as (_ & _ & H3 & H4 & _).
    { unfold ord. lia. }
    split; assumption.
Qed.

(** X9: the theoretical playback time of [benchmark_encoder], the sum
    of the durations of the tone events, is the number of events times
    the configured duration: [len(T) * d] for the single-tone encoders,
    and [2 * len(T) * d] for the dual-tone one on code points up to
    255. *)
Theorem theoretical_playback_time :
  (forall self T,
     exists frame,
       FSK.encode self T = Ok frame
       /\ Benchmark.playback_time (tones frame)
          = (Z.of_nat (length T) * FSK.tone_duration_ms self)%Z)
  /\ (forall self T,
        exists frame,
          Ultrasonic.encode self T = Ok frame
          /\ Benchmark.playback_time (tones frame)
             = (Z.of_nat (length T) * Ultrasonic.tone_duration_ms self)%Z)
  /\ (forall self T,
        exists frame,
          DTMF.encode self T = Ok frame
          /\ Benchmark.playback_time (tones frame)
             = (Z.of_nat (length (tones frame))
                * DTMF.tone_duration_ms self)%Z
          /\ (Forall (fun c => (ord c <= 255)%Z) T ->
              Benchmark.playback_time (tones frame)
              = (2 * Z.of_nat (length T) * DTMF.tone_duration_ms self)%Z)).
Proof.
  split; [|split]; intros self T.
  - rewrite fsk_encode_map. eexists. split; [reflexivity|]. cbn [tones].
    unfold Benchmark.playback_time.
    rewrite (playback_time_uniform (FSK.tone_duration_ms self)).
    + rewrite length_map. lia.
    + apply Forall_map. apply Forall_forall. intros c _. reflexivity.
  - rewrite ultrasonic_encode_map. eexists. split; [reflexivity|].
    cbn [tones]. unfold Benchmark.playback_time.
    rewrite (playback_time_uniform (Ultrasonic.tone_duration_ms self)).
    + rewrite length_map. lia.
    + apply Forall_map. apply Forall_forall. intros c _. reflexivity.
  - destruct (dtmf_encode_total self T) as (frame & He & _ & Hd & _).
    exists frame. split; [exact He|].
    assert (Hp : Benchmark.playback_time (tones frame)
                 = (Z.of_nat (length (tones frame))
                    * DTMF.tone_duration_ms self)%Z).
    { unfold Benchmark.playback_time.
      rewrite (playback_time_uniform (DTMF.tone_duration_ms self) _ _ Hd).
      lia. }
    split; [exact Hp|]. intros HT. rewrite Hp.
    destruct (dtmf_encode_latin1 self T HT) as (frame' & He' & Hlen & _).
    rewrite He in He'. inversion He'; subst frame'. rewrite Hlen. lia.
Qed.

Lemma theoretical_playback_time_witness :
  Forall (fun c => (ord c <= 255)%Z) [72%N; 105%N]
  /\ exists frame,
       DTMF.encode {| DTMF.tone_duration_ms := 100 |} [72%N; 105%N] = Ok frame
       /\ Benchmark.playback_time (tones frame) = 400%Z.
Proof.
  assert (H : Forall (fun c => (ord c <= 255)%Z) [72%N; 105%N])
    by (repeat constructor; vm_compute; discriminate).
  split; [exact H|].
  destruct (proj2 (proj2 theoretical_playback_time)
              {| DTMF.tone_duration_ms := 100 |} [72%N; 105%N])
    as (frame & He & _ & Hp).
  exists frame. split; [exact He | exact (Hp H)].
Defined.

(* ================================================================== *)
(** * The throughput figure of the ultrasonic encoder *)
(* ================================================================== *)

Section SpeedFacts.

Local Open Scope Z_scope.

Lemma speed_of_divisors :
  Binary64.all_from
    (fun d =>
       if 1000 mod d =? 0
       then PrimFloat.eqb
              (UltrasonicSpeed.int_to_float 1000
               / UltrasonicSpeed.int_to_float d * 8)%float
              (float_of_int (8000 / d))
       else true)
    1 1000 = true.
Proof. vm_compute. reflexivity. Qed.

Lemma speed_decreasing :
  Binary64.all_from
    (fun d1 =>
       Binary64.all_from
         (fun d2 =>
            if d1 <? d2
            then PrimFloat.ltb
                   (UltrasonicSpeed.int_to_float 1000
                    / UltrasonicSpeed.int_to_float d2 * 8)%float
                   (UltrasonicSpeed.int_to_float 1000
                    / UltrasonicSpeed.int_to_float d1 * 8)%float
            else true)
         1 200)
    1 200 = true.
Proof. vm_compute. reflexivity. Qed.

Lemma speed_unfold self :
  Ultrasonic.tone_duration_ms self <> 0 ->
  UltrasonicSpeed.theoretical_speed_bps self
  = UltrasonicSpeed.Bps
      (UltrasonicSpeed.int_to_float 1000
       / UltrasonicSpeed.int_to_float (Ultrasonic.tone_duration_ms self)
       * 8)%float.
Proof.
  intros H. unfold UltrasonicSpeed.theoretical_speed_bps.
  destruct (Z.eqb_spec (Ultrasonic.tone_duration_ms self) 0);
    [contradiction | reflexivity].
Qed.

(** A negative duration gives a negative figure, as in Python. *)
Lemma speed_of_negative_duration :
  UltrasonicSpeed.theoretical_speed_bps
    {| Ultrasonic.tone_duration_ms := -5 |}
  = UltrasonicSpeed.Bps (-1600)%float.
Proof. reflexivity. Qed.

End SpeedFacts.

(** X8: [theoretical_speed_bps] divides by the tone duration: it raises
    [ZeroDivisionError] exactly when the duration is 0. For a duration
    from 1 to 1000 ms that divides 1000 the figure is exactly
    [8000 / d] bits per second, and over 1 to 200 ms a longer tone
    always gives a strictly lower figure. *)
Theorem ultrasonic_theoretical_speed :
  (forall self,
     Ultrasonic.tone_duration_ms self = 0%Z
     <-> UltrasonicSpeed.theoretical_speed_bps self
         = UltrasonicSpeed.ZeroDivisionError)
  /\ (forall self,
        (1 <= Ultrasonic.tone_duration_ms self <= 1000)%Z ->
        (1000 mod Ultrasonic.tone_duration_ms self = 0)%Z ->
        exists v,
          UltrasonicSpeed.theoretical_speed_bps self = UltrasonicSpeed.Bps v
          /\ PrimFloat.eqb v
               (float_of_int (8000 / Ultrasonic.tone_duration_ms self))
             = true)
  /\ (forall fast slow,
        (1 <= Ultrasonic.tone_duration_ms fast)%Z ->
        (Ultrasonic.tone_duration_ms fast
         < Ultrasonic.tone_duration_ms slow)%Z ->
        (Ultrasonic.tone_duration_ms slow <= 200)%Z ->
        exists v w,
          UltrasonicSpeed.theoretical_speed_bps fast = UltrasonicSpeed.Bps v
          /\ UltrasonicSpeed.theoretical_speed_bps slow
             = UltrasonicSpeed.Bps w
          /\ PrimFloat.ltb w v = true).
Proof.
  split; [|split].
  - intros self. unfold UltrasonicSpeed.theoretical_speed_bps.
    destruct (Z.eqb_spec (Ultrasonic.tone_duration_ms self) 0) as [E|E].
    + split; [reflexivity | intros _; exact E].
    + split; [contradiction | discriminate].
  - intros self Hd Hdiv. eexists. split; [apply speed_unfold; lia|].
    pose proof (all_from_spec _ _ 1%Z (Ultrasonic.tone_duration_ms self)
                  speed_of_divisors ltac:(lia)) as H.
    cbv beta in H. rewrite Hdiv in H. exact H.
  - intros fast slow H1 H2 H3. do 2 eexists.
    split; [apply speed_unfold; lia|]. split; [apply speed_unfold; lia|].
    pose proof (all_from_spec _ _ 1%Z (Ultrasonic.tone_duration_ms fast)
                  speed_decreasing ltac:(lia)) as H.
    cbv beta in H.
    pose proof (all_from_spec _ _ 1%Z (Ultrasonic.tone_duration_ms slow)
                  H ltac:(lia)) as H'.
    cbv beta in H'.
    destruct (Z.ltb_spec (Ultrasonic.tone_duration_ms fast)
                (Ultrasonic.tone_duration_ms slow)); [exact H' | lia].
Qed.

Lemma ultrasonic_theoretical_speed_witness :
  UltrasonicSpeed.theoretical_speed_bps {| Ultrasonic.tone_duration_ms := 0 |}
  = UltrasonicSpeed.ZeroDivisionError
  /\ (exists v,
        UltrasonicSpeed.theoretical_speed_bps
          {| Ultrasonic.tone_duration_ms := 5 |} = UltrasonicSpeed.Bps v
        /\ PrimFloat.eqb v 1600 = true)
  /\ (exists v w,
        UltrasonicSpeed.theoretical_speed_bps
          {| Ultrasonic.tone_duration_ms := 1 |} = UltrasonicSpeed.Bps v
        /\ UltrasonicSpeed.theoretical_speed_bps
             {| Ultrasonic.tone_duration_ms := 5 |} = UltrasonicSpeed.Bps w
        /\ PrimFloat.ltb w v = true).
Proof.
  destruct ultrasonic_theoretical_speed as (Hz & Hd & Hm).
  split; [|split].
  - apply (proj1 (Hz {| Ultrasonic.tone_duration_ms := 0 |})). reflexivity.
  - destruct (Hd {| Ultrasonic.tone_duration_ms := 5 |}) as (v & Hv & He).
    + cbn. lia.
    + reflexivity.
    + exists v. split; [exact Hv | exact He].
  - apply (Hm {| Ultrasonic.tone_duration_ms := 1 |}
              {| Ultrasonic.tone_duration_ms := 5 |}); cbn; lia.
Defined.

(* ================================================================== *)
(** * Further properties of the token buffer *)
(* ================================================================== *)

Section TokenBufferFurther.

Import Buffer TokenBuffer TokenBufferFacts Counting.
Local Open Scope Z_scope.

(** Every way [perform] can end, with the state it ends in. *)
Lemma perform_cases o st :
  let st1 := match o with Add fragment => appended fragment st | Flush => st end in
  (perform o st = (st1, Ok tt)
   /\ (_buffer (self st1) = []
       \/ exists fragment,
            o = Add fragment
            /\ _token_count (self st) + 1 < buffer_size (self st)))
  \/ (_buffer (self st1) <> []
      /\ (match o with
          | Add _ => buffer_size (self st) <= _token_count (self st) + 1
          | Flush => True
          end)
      /\ ((exists u,
             on_flush (self st1) (calls st1) (_buffer (self st1)) = Ok u
             /\ perform o st = (cleared st1, Ok tt))
          \/ (exists e,
                on_flush (self st1) (calls st1) (_buffer (self st1)) = Raise e
                /\ perform o st = (called st1, Raise e)))).
Proof.
  cbv zeta. destruct o as [fragment|]; cbn [perform].
  - rewrite add_unfold.
    destruct (Z.geb_spec (_token_count (self st) + 1) (buffer_size (self st)))
      as [Hge|Hlt].
    + destruct (flush_cases (appended fragment st))
        as [[Hb H]|[Hb [(u & Hu & H)|(e & He & H)]]].
      * left. split; [exact H | left; exact Hb].
      * right. split; [exact Hb|]. split; [lia|]. left. exists u. auto.
      * right. split; [exact Hb|]. split; [lia|]. right. exists e. auto.
    + left. split; [reflexivity|]. right. exists fragment. split; [reflexivity|lia].
  - destruct (flush_cases st)
      as [[Hb H]|[Hb [(u & Hu & H)|(e & He & H)]]].
    + left. split; [exact H | left; exact Hb].
    + right. split; [exact Hb|]. split; [exact I|]. left. exists u. auto.
    + right. split; [exact Hb|]. split; [exact I|]. right. exists e. auto.
Qed.

Lemma perform_on_flush o st :
  on_flush (self (fst (perform o st))) = on_flush (self st).
Proof.
  destruct (perform_cases o st) as [[H _]|(_ & _ & [(u & _ & H)|(e & _ & H)])];
    rewrite H; destruct o; reflexivity.
Qed.

Lemma run_app ops1 ops2 st :
  run (ops1 ++ ops2) st
  = match run ops1 st with
    | (st', Ok _) => run ops2 st'
    | (st', Raise e) => (st', Raise e)
    end.
Proof.
  revert st. induction ops1 as [|o ops1 IH]; intros st.
  - reflexivity.
  - cbn [app]. rewrite !run_cons.
    destruct (perform o st) as [st1 [[]|e]]; [apply IH | reflexivity].
Qed.

(** What one returning operation does to the text in flight. *)
Lemma perform_conserves o st st' :
  perform o st = (st', Ok tt) ->
  concat (calls st') ++ _buffer (self st')
  = concat (calls st) ++ _buffer (self st)
    ++ match o with Add fragment => fragment | Flush => [] end.
Proof.
  intros Hp.
  destruct (perform_cases o st) as [[H _]|(_ & _ & [(u & _ & H)|(e & _ & H)])];
    rewrite H in Hp; inversion Hp; subst st'; clear Hp;
    destruct o as [fragment|];
    cbn [cleared called appended self calls _buffer];
    rewrite ?concat_app, ?app_nil_r; cbn [concat];
    rewrite ?app_nil_r, ?app_assoc; reflexivity.
Qed.

Lemma run_conserves ops : forall st st',
  run ops st = (st', Ok tt) ->
  concat (calls st') ++ _buffer (self st')
  = concat (calls st) ++ _buffer (self st) ++ concat (added ops).
Proof.
  induction ops as [|o ops IH]; intros st st' Hrun.
  - inversion Hrun; subst. cbn [added concat]. rewrite app_nil_r. reflexivity.
  - rewrite run_cons in Hrun.
    destruct (perform o st) as [st1 [[]|e]] eqn:Hp; [|discriminate].
    rewrite (IH st1 st' Hrun), app_assoc, (perform_conserves o st st1 Hp).
    destruct o as [fragment|]; cbn [added concat];
      rewrite <- ?app_assoc, ?app_nil_r; reflexivity.
Qed.

Lemma perform_calls_nonempty o st :
  Forall (fun t => t <> []) (calls st) ->
  Forall (fun t => t <> []) (calls (fst (perform o st))).
Proof.
  intros Hc.
  destruct (perform_cases o st)
    as [[H _]|(Hb & _ & [(u & _ & H)|(e & _ & H)])];
    rewrite H; destruct o as [fragment|];
    cbn [fst cleared called appended self calls _buffer] in *;
    try assumption;
    (apply Forall_app; split; [assumption | constructor; [assumption|constructor]]).
Qed.

Lemma run_calls_nonempty ops : forall st,
  Forall (fun t => t <> []) (calls st) ->
  Forall (fun t => t <> []) (calls (fst (run ops st))).
Proof.
  induction ops as [|o ops IH]; intros st Hc.
  - exact Hc.
  - rewrite run_cons.
    pose proof (perform_calls_nonempty o st Hc) as H1.
    destruct (perform o st) as [st1 [[]|e]]; cbn [fst] in *.
    + apply IH. exact H1.
    + exact H1.
Qed.

(** With a callback that always returns, so does every run. *)
Lemma run_returns ops : forall st,
  (forall hist t, on_flush (self st) hist t = Ok tt) ->
  snd (run ops st) = Ok tt
  /\ on_flush (self (fst (run ops st))) = on_flush (self st).
Proof.
  induction ops as [|o ops IH]; intros st Hh.
  - split; reflexivity.
  - rewrite run_cons.
    pose proof (perform_returns o st Hh) as Hok.
    pose proof (perform_on_flush o st) as Hsame.
    destruct (perform o st) as [st1 [[]|e]]; cbn [fst snd] in *;
      [|discriminate].
    destruct (IH st1) as [H1 H2].
    { intros hist t. rewrite Hsame. apply Hh. }
    split; [exact H1 | congruence].
Qed.

(** Adding non-empty fragments with a callback that returns: one flush
    every [threshold] fragments. *)
Lemma adds_count fragments : forall st,
  (forall hist t, on_flush (self st) hist t = Ok tt) ->
  Forall (fun t => t <> []) fragments ->
  0 <= _token_count (self st) < buffer_size (self st) ->
  let st' := fst (run (map Add fragments) st) in
  _token_count (self st')
  = (_token_count (self st) + Z.of_nat (length fragments))
    mod buffer_size (self st)
  /\ Z.of_nat (length (calls st'))
     = Z.of_nat (length (calls st))
       + (_token_count (self st) + Z.of_nat (length fragments))
         / buffer_size (self st).
Proof.
  induction fragments as [|t fragments IH]; intros st Hh Hne Hc; cbv zeta.
  - cbn [map run ret fst length]. rewrite Z.add_0_r.
    rewrite Z.mod_small, Z.div_small by lia. lia.
  - apply Forall_cons_iff in Hne as [Ht Hne].
    cbn [map]. rewrite run_cons.
    pose proof (perform_on_flush (Add t) st) as Hsame.
    pose proof (perform_buffer_size (Add t) st) as Hsize.
    assert (Happ : _buffer (self (appended t st)) <> []).
    { cbn [appended self _buffer]. intros H.
      apply app_eq_nil in H as [_ H]. contradiction. }
    destruct (perform_cases (Add t) st)
      as [[H [Hb|(f & _ & Hlt)]]|(_ & Hge & [(u & _ & H)|(e & He & H)])];
      cbv zeta in *.
    + contradiction.
    + rewrite H in Hsame, Hsize |- *. cbn [fst] in Hsame, Hsize.
      assert (A1 : forall hist x,
                on_flush (self (appended t st)) hist x = Ok tt)
        by (intros hist x; apply Hh).
      assert (A2 : 0 <= _token_count (self (appended t st))
                   < buffer_size (self (appended t st)))
        by (cbn [appended self _token_count buffer_size]; lia).
      destruct (IH (appended t st) A1 Hne A2) as [I1 I2].
      cbn [appended self _token_count buffer_size calls] in I1, I2.
      rewrite I1, I2. cbn [length].
      replace (_token_count (self st) + Z.of_nat (S (length fragments)))
        with (_token_count (self st) + 1 + Z.of_nat (length fragments))
        by lia.
      split; reflexivity.
    + rewrite H in Hsame, Hsize |- *. cbn [fst] in Hsame, Hsize.
      assert (A1 : forall hist x,
                on_flush (self (cleared (appended t st))) hist x = Ok tt)
        by (intros hist x; apply Hh).
      assert (A2 : 0 <= _token_count (self (cleared (appended t st)))
                   < buffer_size (self (cleared (appended t st))))
        by (cbn [cleared appended self _token_count buffer_size]; lia).
      destruct (IH (cleared (appended t st)) A1 Hne A2) as [I1 I2].
      cbn [cleared appended self _token_count buffer_size calls _buffer]
        in I1, I2.
      rewrite I1, I2, length_app. cbn [length].
      set (n := buffer_size (self st)) in *.
      set (c := _token_count (self st)) in *.
      set (k := Z.of_nat (length fragments)) in *.
      assert (Hcn : c + 1 = n) by lia.
      replace (c + Z.of_nat (S (length fragments))) with (k + 1 * n)
        by (unfold k; lia).
      rewrite Z.mod_add, Z.div_add by lia.
      rewrite Z.add_0_l. split; [reflexivity | lia].
    + cbn [appended self on_flush] in He. rewrite Hh in He. discriminate.
Qed.

(** With a threshold of at most 1 every non-empty fragment is handed
    over at once and alone; empty ones are not handed over at all. *)
Lemma eager_adds chunks : forall st,
  (forall hist t, on_flush (self st) hist t = Ok tt) ->
  buffer_size (self st) <= 1 ->
  0 <= _token_count (self st) ->
  _buffer (self st) = [] ->
  let st' := fst (run (map Add chunks) st) in
  calls st' = calls st ++ non_empty chunks
  /\ _buffer (self st') = [].
Proof.
  induction chunks as [|t chunks IH]; intros st Hh Hn Hc Hb; cbv zeta.
  - cbn [map run ret fst non_empty filter]. rewrite app_nil_r. auto.
  - cbn [map]. rewrite run_cons.
    pose proof (perform_on_flush (Add t) st) as Hsame.
    pose proof (perform_buffer_size (Add t) st) as Hsize.
    destruct (perform_cases (Add t) st)
      as [[H [Hbuf|(f & _ & Hlt)]]|(Hbuf & _ & [(u & _ & H)|(e & He & H)])];
      cbv zeta in *.
    + (* the fragment is empty: nothing to hand over *)
      cbn [appended self _buffer] in Hbuf. rewrite Hb in Hbuf.
      cbn [app] in Hbuf. subst t.
      rewrite H in Hsame, Hsize |- *. cbn [fst] in Hsame, Hsize.
      assert (A1 : forall hist x,
                on_flush (self (appended [] st)) hist x = Ok tt)
        by (intros hist x; apply Hh).
      assert (A2 : buffer_size (self (appended [] st)) <= 1) by exact Hn.
      assert (A3 : 0 <= _token_count (self (appended [] st)))
        by (cbn [appended self _token_count]; lia).
      assert (A4 : _buffer (self (appended [] st)) = [])
        by (cbn [appended self _buffer]; rewrite Hb; reflexivity).
      destruct (IH (appended [] st) A1 A2 A3 A4) as [I1 I2].
      rewrite I1, I2.
      cbn [appended calls non_empty filter truthy]. auto.
    + lia.
    + cbn [appended self _buffer] in Hbuf. rewrite Hb in Hbuf.
      cbn [app] in Hbuf.
      rewrite H in Hsame, Hsize |- *. cbn [fst] in Hsame, Hsize.
      assert (A1 : forall hist x,
                on_flush (self (cleared (appended t st))) hist x = Ok tt)
        by (intros hist x; apply Hh).
      assert (A2 : buffer_size (self (cleared (appended t st))) <= 1)
        by exact Hn.
      assert (A3 : 0 <= _token_count (self (cleared (appended t st))))
        by (cbn [cleared self _token_count]; lia).
      destruct (IH (cleared (appended t st)) A1 A2 A3 eq_refl) as [I1 I2].
      rewrite I1, I2.
      cbn [cleared appended calls self _buffer]. rewrite Hb. cbn [app].
      unfold non_empty. cbn [filter].
      destruct t as [|c t]; [contradiction|]. cbn [truthy].
      rewrite <- app_assoc. auto.
    + cbn [appended self on_flush] in He. rewrite Hh in He. discriminate.
Qed.

End TokenBufferFurther.

Section TokenBufferStreams.

Import Buffer TokenBuffer TokenBufferFacts Counting.

Lemma added_adds chunks : added (map Add chunks) = chunks.
Proof.
  induction chunks as [|t chunks IH]; cbn [map added]; congruence.
Qed.

Lemma added_app ops1 ops2 : added (ops1 ++ ops2) = added ops1 ++ added ops2.
Proof.
  induction ops1 as [|[t|] ops1 IH]; cbn [app added]; congruence.
Qed.

End TokenBufferStreams.

(** X10: the buffer neither loses, duplicates nor reorders text. After
    any sequence of [add] and [flush] calls that all returned, the texts
    handed to the callback so far, followed by the text still pending,
    are the added fragments in their order. *)
Theorem buffer_conserves_text :
  forall threshold on_flush ops st,
    TokenBuffer.run ops (TokenBuffer.fresh threshold on_flush) = (st, Ok tt) ->
    concat (Buffer.calls st) ++ Buffer._buffer (Buffer.self st)
    = concat (Counting.added ops).
Proof.
  intros threshold on_flush ops st Hrun.
  rewrite (run_conserves ops _ st Hrun). reflexivity.
Qed.

Lemma buffer_conserves_text_witness :
  let ops := [TokenBuffer.Add [72%N]; TokenBuffer.Add [105%N; 33%N];
              TokenBuffer.Add [63%N]] in
  let st := fst (TokenBuffer.run ops
                   (TokenBuffer.fresh 2 TokenBufferFacts.accepting)) in
  Buffer.calls st = [[72%N; 105%N; 33%N]]
  /\ Buffer._buffer (Buffer.self st) = [63%N]
  /\ concat (Buffer.calls st) ++ Buffer._buffer (Buffer.self st)
     = [72%N; 105%N; 33%N; 63%N].
Proof.
  cbv zeta.
  assert (Hrun :
    TokenBuffer.run
      [TokenBuffer.Add [72%N]; TokenBuffer.Add [105%N; 33%N];
       TokenBuffer.Add [63%N]]
      (TokenBuffer.fresh 2 TokenBufferFacts.accepting)
    = (fst (TokenBuffer.run
              [TokenBuffer.Add [72%N]; TokenBuffer.Add [105%N; 33%N];
               TokenBuffer.Add [63%N]]
              (TokenBuffer.fresh 2 TokenBufferFacts.accepting)), Ok tt))
    by (vm_compute; reflexivity).
  split; [reflexivity|]. split; [reflexivity|].
  exact (buffer_conserves_text 2 TokenBufferFacts.accepting _ _ Hrun).
Defined.

(** X11: whatever the threshold, the callback and the operations, even
    in a run that ends on a raise, the callback is never called with an
    empty text. *)
Theorem handler_never_gets_empty_text :
  forall threshold on_flush ops,
    Forall (fun t => t <> [])
      (Buffer.calls
         (fst (TokenBuffer.run ops (TokenBuffer.fresh threshold on_flush)))).
Proof.
  intros threshold on_flush ops. apply run_calls_nonempty. constructor.
Qed.

(** X12: with a threshold [n >= 1] and a callback that always returns,
    adding [k] non-empty fragments to a new buffer calls the callback
    exactly [k / n] times and leaves the counter at [k mod n]. *)
Theorem one_flush_per_threshold_fragments :
  forall threshold on_flush fragments,
    (1 <= threshold)%Z ->
    (forall hist t, on_flush hist t = Ok tt) ->
    Forall (fun t => t <> []) fragments ->
    snd (TokenBuffer.run (map TokenBuffer.Add fragments)
           (TokenBuffer.fresh threshold on_flush)) = Ok tt
    /\ Z.of_nat
         (length
            (Buffer.calls
               (fst (TokenBuffer.run (map TokenBuffer.Add fragments)
                       (TokenBuffer.fresh threshold on_flush)))))
       = (Z.of_nat (length fragments) / threshold)%Z
    /\ Buffer._token_count
         (Buffer.self
            (fst (TokenBuffer.run (map TokenBuffer.Add fragments)
                    (TokenBuffer.fresh threshold on_flush))))
       = (Z.of_nat (length fragments) mod threshold)%Z.
Proof.
  intros threshold on_flush fragments Hn Hh Hne.
  destruct (run_returns (map TokenBuffer.Add fragments)
              (TokenBuffer.fresh threshold on_flush) Hh) as [Hok _].
  destruct (adds_count fragments (TokenBuffer.fresh threshold on_flush)
              Hh Hne) as [Hc Hl].
  { cbn [TokenBuffer.fresh Buffer.self Buffer._token_count Buffer.buffer_size].
    lia. }
  cbn [TokenBuffer.fresh Buffer.self Buffer._token_count Buffer.buffer_size
       Buffer.calls length] in Hc, Hl.
  rewrite Z.add_0_l in Hc, Hl. change (Z.of_nat 0) with 0%Z in Hl.
  rewrite Z.add_0_l in Hl.
  split; [exact Hok|]. split; [exact Hl | exact Hc].
Qed.

Lemma one_flush_per_threshold_fragments_witness :
  let fragments := [[97%N]; [98%N]; [99%N]; [100%N]; [101%N]; [102%N];
                    [103%N]] in
  (1 <= 3)%Z
  /\ Z.of_nat
       (length
          (Buffer.calls
             (fst (TokenBuffer.run (map TokenBuffer.Add fragments)
                     (TokenBuffer.fresh 3 TokenBufferFacts.accepting)))))
     = 2%Z
  /\ Buffer._token_count
       (Buffer.self
          (fst (TokenBuffer.run (map TokenBuffer.Add fragments)
                  (TokenBuffer.fresh 3 TokenBufferFacts.accepting))))
     = 1%Z.
Proof.
  cbv zeta.
  assert (H1 : (1 <= 3)%Z) by lia.
  assert (H2 : forall hist t, TokenBufferFacts.accepting hist t = Ok tt)
    by (intros; reflexivity).
  assert (H3 : Forall (fun t : text => t <> [])
                 [[97%N]; [98%N]; [99%N]; [100%N]; [101%N]; [102%N]; [103%N]])
    by (repeat constructor; discriminate).
  split; [exact H1|].
  destruct (one_flush_per_threshold_fragments 3 TokenBufferFacts.accepting
              _ H1 H2 H3) as (_ & Hl & Hc).
  split; [exact Hl | exact Hc].
Defined.

(** X13: the streaming loop of [run_stream], every chunk added and one
    final [flush], with a callback that always returns: the loop
    returns, nothing is left pending, and the texts handed to the
    callback are, put together, the whole stream; this for any
    threshold. *)
Theorem stream_hands_over_everything :
  forall threshold on_flush chunks,
    (forall hist t, on_flush hist t = Ok tt) ->
    snd (Main.stream chunks (TokenBuffer.fresh threshold on_flush)) = Ok tt
    /\ Buffer._buffer
         (Buffer.self
            (fst (Main.stream chunks (TokenBuffer.fresh threshold on_flush))))
       = []
    /\ concat
         (Buffer.calls
            (fst (Main.stream chunks (TokenBuffer.fresh threshold on_flush))))
       = concat chunks.
Proof.
  intros threshold on_flush chunks Hh.
  set (st0 := TokenBuffer.fresh threshold on_flush).
  destruct (run_returns (map TokenBuffer.Add chunks ++ [TokenBuffer.Flush])
              st0 Hh) as [Hok _].
  fold (Main.stream chunks) in Hok.
  destruct (Main.stream chunks st0) as [st r] eqn:Hs.
  cbn [fst snd] in *. subst r.
  pose proof (run_conserves _ _ _ Hs) as Hcons.
  rewrite added_app, added_adds in Hcons.
  cbn [Counting.added concat] in Hcons.
  (* the last operation is a flush that returned *)
  unfold Main.stream in Hs. rewrite run_app in Hs.
  destruct (TokenBuffer.run (map TokenBuffer.Add chunks) st0)
    as [st1 [[]|e]]; [|discriminate].
  rewrite run_cons in Hs. cbn [TokenBuffer.perform] in Hs.
  pose proof (flush_returns st1) as Hfl.
  destruct (TokenBuffer.flush st1) as [st2 [[]|e]]; [|discriminate].
  cbn [TokenBuffer.run Buffer.ret] in Hs. inversion Hs; subst st2.
  destruct (Hfl eq_refl) as (Hempty & _). cbn [fst] in Hempty.
  split; [reflexivity|]. split; [exact Hempty|].
  rewrite Hempty in Hcons. rewrite !app_nil_r in Hcons. exact Hcons.
Qed.

Lemma stream_hands_over_everything_witness :
  snd (Main.stream [[72%N]; []; [105%N; 33%N]]
         (TokenBuffer.fresh 2 TokenBufferFacts.accepting)) = Ok tt
  /\ concat
       (Buffer.calls
          (fst (Main.stream [[72%N]; []; [105%N; 33%N]]
                  (TokenBuffer.fresh 2 TokenBufferFacts.accepting))))
     = [72%N; 105%N; 33%N].
Proof.
  assert (H : forall hist t, TokenBufferFacts.accepting hist t = Ok tt)
    by (intros; reflexivity).
  destruct (stream_hands_over_everything 2 TokenBufferFacts.accepting
              [[72%N]; []; [105%N; 33%N]] H) as (Hok & _ & Hc).
  split; [exact Hok | exact Hc].
Defined.

(** X14: with a threshold of at most 1, the default of the command
    line, and a callback that always returns, every non-empty chunk is
    handed to the callback at once and on its own, in order, and empty
    chunks are never handed over; nothing stays pending. *)
Theorem eager_buffer_hands_over_each_chunk :
  forall threshold on_flush chunks,
    (threshold <= 1)%Z ->
    (forall hist t, on_flush hist t = Ok tt) ->
    Buffer.calls
      (fst (TokenBuffer.run (map TokenBuffer.Add chunks)
              (TokenBuffer.fresh threshold on_flush)))
    = Counting.non_empty chunks
    /\ Buffer._buffer
         (Buffer.self
            (fst (TokenBuffer.run (map TokenBuffer.Add chunks)
                    (TokenBuffer.fresh threshold on_flush))))
       = [].
Proof.
  intros threshold on_flush chunks Hn Hh.
  destruct (eager_adds chunks (TokenBuffer.fresh threshold on_flush) Hh Hn)
    as [Hc Hb].
  - cbn [TokenBuffer.fresh Buffer.self Buffer._token_count]. lia.
  - reflexivity.
  - split; [exact Hc | exact Hb].
Qed.

Lemma eager_buffer_hands_over_each_chunk_witness :
  (1 <= 1)%Z
  /\ Buffer.calls
       (fst (TokenBuffer.run
               (map TokenBuffer.Add [[72%N]; []; [105%N; 33%N]])
               (TokenBuffer.fresh 1 TokenBufferFacts.accepting)))
     = [[72%N]; [105%N; 33%N]].
Proof.
  assert (H1 : (1 <= 1)%Z) by lia.
  assert (H2 : forall hist t, TokenBufferFacts.accepting hist t = Ok tt)
    by (intros; reflexivity).
  split; [exact H1|].
  exact (proj1 (eager_buffer_hands_over_each_chunk
                  1 TokenBufferFacts.accepting
                  [[72%N]; []; [105%N; 33%N]] H1 H2)).
Defined.

(** X15: when the flush inside [add] fails because the callback raises,
    the fragment is not lost: it has been appended and counted, and the
    callback was called once, with the whole pending text. *)
Theorem add_keeps_fragment_when_handler_raises :
  forall st fragment e,
    snd (TokenBuffer.add fragment st) = Raise e ->
    Buffer._buffer (Buffer.self (fst (TokenBuffer.add fragment st)))
    = Buffer._buffer (Buffer.self st) ++ fragment
    /\ Buffer._token_count (Buffer.self (fst (TokenBuffer.add fragment st)))
       = (Buffer._token_count (Buffer.self st) + 1)%Z
    /\ Buffer.calls (fst (TokenBuffer.add fragment st))
       = Buffer.calls st ++ [Buffer._buffer (Buffer.self st) ++ fragment].
Proof.
  intros st fragment e Hr.
  change (TokenBuffer.add fragment) with
    (TokenBuffer.perform (TokenBuffer.Add fragment)) in *.
  destruct (perform_cases (TokenBuffer.Add fragment) st)
    as [[H _]|(_ & _ & [(u & _ & H)|(e' & _ & H)])];
    rewrite H in Hr |- *; cbn [fst snd] in *; try discriminate.
  repeat split.
Qed.

Lemma add_keeps_fragment_when_handler_raises_witness :
  let st := TokenBuffer.fresh 1 TokenBufferFacts.refusing in
  snd (TokenBuffer.add [72%N] st) = Raise HandlerError
  /\ Buffer._buffer (Buffer.self (fst (TokenBuffer.add [72%N] st))) = [72%N]
  /\ Buffer._token_count (Buffer.self (fst (TokenBuffer.add [72%N] st)))
     = 1%Z.
Proof.
  cbv zeta.
  assert (H : snd (TokenBuffer.add [72%N]
                     (TokenBuffer.fresh 1 TokenBufferFacts.refusing))
              = Raise HandlerError) by reflexivity.
  split; [exact H|].
  destruct (add_keeps_fragment_when_handler_raises _ _ _ H) as (Hb & Hc & _).
  split; [exact Hb | exact Hc].
Defined.

(** X21: a flush that returned leaves nothing to flush: flushing again
    at once returns without calling the callback and changes nothing. *)
Theorem second_flush_does_nothing :
  forall st,
    snd (TokenBuffer.flush st) = Ok tt ->
    TokenBuffer.flush (fst (TokenBuffer.flush st))
    = (fst (TokenBuffer.flush st), Ok tt).
Proof.
  intros st Hok. apply flush_empty.
  apply (proj1 (flush_returns st Hok)).
Qed.

Lemma second_flush_does_nothing_witness :
  let st :=
    {| Buffer.self := {| Buffer.buffer_size := 3;
                         Buffer.on_flush := TokenBufferFacts.accepting;
                         Buffer._buffer := [72%N; 105%N];
                         Buffer._token_count := 2 |};
       Buffer.calls := [] |} in
  snd (TokenBuffer.flush st) = Ok tt
  /\ Buffer.calls (fst (TokenBuffer.flush (fst (TokenBuffer.flush st))))
     = [[72%N; 105%N]].
Proof.
  cbv zeta.
  set (st :=
    {| Buffer.self := {| Buffer.buffer_size := 3;
                         Buffer.on_flush := TokenBufferFacts.accepting;
                         Buffer._buffer := [72%N; 105%N];
                         Buffer._token_count := 2 |};
       Buffer.calls := [] |}).
  assert (H : snd (TokenBuffer.flush st) = Ok tt) by reflexivity.
  split; [exact H|].
  rewrite (second_flush_does_nothing st H). reflexivity.
Defined.

(* ================================================================== *)
(** * Further properties of the tone synthesizer *)
(* ================================================================== *)

Section ToneFurther.

Import Tone ToneFacts.
Local Open Scope R_scope.

Lemma generate_tone_ok_samples frequencies duration_ms sample_rate samples :
  generate_tone frequencies duration_ms (Some sample_rate) = Ok samples ->
  (0 <= num_samples_of duration_ms sample_rate)%Z.
Proof.
  intros H.
  destruct (Z.lt_ge_cases (num_samples_of duration_ms sample_rate) 0)
    as [Hneg|Hpos]; [|exact Hpos].
  rewrite (generate_tone_negative _ _ _ Hneg) in H. discriminate.
Qed.

Lemma sine_sum_at_zero frequencies : sine_sum frequencies 0 = 0.
Proof.
  unfold sine_sum.
  assert (H : forall a,
            fold_left (fun acc f => acc + sin (2 * PI * f * 0)) frequencies a
            = a).
  { induction frequencies as [|f fs IH]; intros a; cbn [fold_left].
    - reflexivity.
    - rewrite IH, Rmult_0_r, sin_0. ring. }
  apply H.
Qed.

Lemma sample_time_first duration_ms n : sample_time duration_ms n 0 = 0.
Proof.
  unfold sample_time. destruct (n <=? 1)%nat; [reflexivity|].
  simpl. ring.
Qed.

Lemma sine_sum_swap f g t : sine_sum [f; g] t = sine_sum [g; f] t.
Proof. unfold sine_sum. cbn [fold_left]. ring. Qed.

Lemma summed_signal_swap f g t :
  summed_signal [f; g] t = summed_signal [g; f] t.
Proof.
  apply (nth_ext _ _ 0 0).
  - rewrite !summed_signal_length. reflexivity.
  - intros i Hi. rewrite summed_signal_length in Hi.
    rewrite !summed_signal_nth by (try discriminate; exact Hi).
    rewrite sine_sum_swap. reflexivity.
Qed.

Lemma quot_negative a : (Z.quot a 1000 < 0 <-> a <= -1000)%Z.
Proof. Z.quot_rem_to_equations. lia. Qed.

Lemma generate_tone_returns frequencies duration_ms sample_rate :
  (-1000 < sample_rate * duration_ms)%Z ->
  exists samples,
    generate_tone frequencies duration_ms (Some sample_rate) = Ok samples
    /\ length samples = Z.to_nat (Z.quot (sample_rate * duration_ms) 1000).
Proof.
  intros Hp.
  destruct (generate_tone_spec frequencies duration_ms sample_rate)
    as (samples & u & Hs & _ & Hlen & _).
  - unfold num_samples_of.
    destruct (Z.lt_ge_cases (Z.quot (sample_rate * duration_ms) 1000) 0)
      as [H|H]; [apply quot_negative in H; lia | exact H].
  - exists samples. split; [exact Hs | exact Hlen].
Qed.

End ToneFurther.

(** X16: [generate_tone] fails exactly when the sample count is
    negative. If [sample_rate * duration_ms <= -1000] NumPy refuses the
    count and the call raises [ValueError]; otherwise it returns a
    buffer of [trunc(sample_rate * duration_ms / 1000)] samples, which
    is the empty buffer when the product is below 1000, a duration of
    0 included. *)
Theorem generate_tone_sample_count :
  forall frequencies duration_ms sample_rate,
    ((sample_rate * duration_ms <= -1000)%Z ->
     Tone.generate_tone frequencies duration_ms (Some sample_rate)
     = Raise ValueError)
    /\ ((-1000 < sample_rate * duration_ms)%Z ->
        exists samples,
          Tone.generate_tone frequencies duration_ms (Some sample_rate)
          = Ok samples
          /\ length samples
             = Z.to_nat (Z.quot (sample_rate * duration_ms) 1000))
    /\ ((-1000 < sample_rate * duration_ms < 1000)%Z ->
        Tone.generate_tone frequencies duration_ms (Some sample_rate)
        = Ok []).
Proof.
  intros frequencies duration_ms sample_rate.
  pose proof (generate_tone_returns frequencies duration_ms sample_rate)
    as Hok.
  split; [|split].
  - intros Hn. apply generate_tone_negative.
    unfold Tone.num_samples_of. apply quot_negative. exact Hn.
  - exact Hok.
  - intros [Hlo Hhi]. destruct (Hok Hlo) as (samples & Hs & Hlen).
    rewrite Hs. f_equal.
    assert (Hz : Z.quot (sample_rate * duration_ms) 1000 = 0%Z)
      by (Z.quot_rem_to_equations; lia).
    rewrite Hz in Hlen. destruct samples; [reflexivity | discriminate].
Qed.

Lemma generate_tone_sample_count_witness :
  Tone.generate_tone [440%R] (-100) (Some 44100%Z) = Raise ValueError
  /\ Tone.generate_tone [440%R] 0 (Some 44100%Z) = Ok []
  /\ exists samples,
       Tone.generate_tone [440%R] 100 (Some 22050%Z) = Ok samples
       /\ length samples = 2205%nat.
Proof.
  split; [|split].
  - apply (proj1 (generate_tone_sample_count [440%R] (-100) 44100)).
    vm_compute. discriminate.
  - apply (proj2 (proj2 (generate_tone_sample_count [440%R] 0 44100))).
    split; vm_compute; reflexivity.
  - destruct (proj1 (proj2 (generate_tone_sample_count [440%R] 100 22050)))
      as (samples & Hs & Hlen).
    + vm_compute. reflexivity.
    + exists samples. split; [exact Hs|]. rewrite Hlen. reflexivity.
Defined.

(** X17: dividing by the number of frequencies prevents clipping:
    whatever the non-empty list of frequencies, the duration and the
    sample rate, every sample of a returned buffer lies in [-1, 1]. *)
Theorem chord_samples_in_range :
  forall frequencies duration_ms sample_rate samples,
    frequencies <> [] ->
    Tone.generate_tone frequencies duration_ms (Some sample_rate)
    = Ok samples ->
    Forall (fun s => (-1 <= s <= 1)%R) samples.
Proof.
  intros frequencies duration_ms sample_rate samples Hne Hgen.
  pose proof (generate_tone_ok_samples _ _ _ _ Hgen) as Hn.
  destruct (generate_tone_spec frequencies duration_ms sample_rate Hn)
    as (out & u & Hout & Hu & Hlen & Hul & Hoff & Hon).
  rewrite Hgen in Hout. inversion Hout; subst out. clear Hout.
  destruct (unfaded_tone_spec frequencies duration_ms sample_rate Hn)
    as (u' & Hu' & _ & _ & Hnth).
  rewrite Hu in Hu'. inversion Hu'; subst u'. clear Hu'.
  specialize (Hnth Hne).
  assert (Hbound : forall i, (i < length u)%nat ->
                     (Rabs (nth i u 0) <= 1)%R).
  { intros i Hi. rewrite (Hnth i Hi). apply sine_sum_normalised. exact Hne. }
  apply Forall_nth. intros i d Hi.
  rewrite (nth_indep _ d 0%R) by exact Hi.
  destruct (ToneFacts.faded sample_rate (length samples)) eqn:Hf.
  - rewrite (Hon eq_refl i Hi).
    assert (Hk : (Z.to_nat (Tone.fade_samples_of sample_rate)
                  <= length samples)%nat).
    { unfold ToneFacts.faded in Hf. apply andb_true_iff in Hf as [_ Hl].
      apply Z.ltb_lt in Hl. lia. }
    pose proof (envelope_gain_range (length samples)
                  (Z.to_nat (Tone.fade_samples_of sample_rate)) i Hi Hk)
      as [Hg0 Hg1].
    pose proof (Hbound i ltac:(lia)) as Hb. apply abs_le_interval in Hb.
    set (x := nth i u 0%R) in *.
    set (g := ToneFacts.envelope_gain _ _ i) in *.
    split; nra.
  - rewrite (Hoff eq_refl). rewrite (Hoff eq_refl) in Hi.
    apply abs_le_interval. apply Hbound. exact Hi.
Qed.

Lemma chord_samples_in_range_witness :
  [697%R; 1209%R] <> []
  /\ exists samples,
       Tone.generate_tone [697%R; 1209%R] 100 (Some 44100%Z) = Ok samples
       /\ Forall (fun s => (-1 <= s <= 1)%R) samples.
Proof.
  assert (Hne : [697%R; 1209%R] <> []) by discriminate.
  split; [exact Hne|].
  destruct (generate_tone_returns [697%R; 1209%R] 100 44100)
    as (samples & Hs & _).
  { vm_compute. reflexivity. }
  exists samples. split; [exact Hs|].
  exact (chord_samples_in_range _ _ _ _ Hne Hs).
Defined.

(** X18: a tone always starts at exactly 0, faded or not: the time grid
    starts at 0 and [sin 0 = 0], whatever the frequencies. *)
Theorem tone_starts_at_zero :
  forall frequencies duration_ms sample_rate samples,
    Tone.generate_tone frequencies duration_ms (Some sample_rate)
    = Ok samples ->
    nth 0 samples 0%R = 0%R.
Proof.
  intros frequencies duration_ms sample_rate samples Hgen.
  pose proof (generate_tone_ok_samples _ _ _ _ Hgen) as Hn.
  destruct (generate_tone_spec frequencies duration_ms sample_rate Hn)
    as (out & u & Hout & Hu & Hlen & Hul & Hoff & Hon).
  rewrite Hgen in Hout. inversion Hout; subst out. clear Hout.
  destruct (unfaded_tone_spec frequencies duration_ms sample_rate Hn)
    as (u' & Hu' & _ & Hzero & Hnth).
  rewrite Hu in Hu'. inversion Hu'; subst u'. clear Hu'.
  destruct samples as [|s samples']; [reflexivity|].
  set (samples := s :: samples') in *.
  assert (Hpos : (0 < length samples)%nat) by (cbn; lia).
  assert (Hu0 : nth 0 u 0%R = 0%R).
  { destruct frequencies as [|f fs].
    - apply (proj1 (Forall_nth (fun s => s = 0%R) u) (Hzero eq_refl)). lia.
    - rewrite (Hnth ltac:(discriminate) 0%nat) by lia.
      rewrite sample_time_first, sine_sum_at_zero. unfold Rdiv. ring. }
  destruct (ToneFacts.faded sample_rate (length samples)) eqn:Hf.
  - rewrite (Hon eq_refl 0%nat Hpos), Hu0. ring.
  - rewrite (Hoff eq_refl). exact Hu0.
Qed.

Lemma tone_starts_at_zero_witness :
  exists samples,
    Tone.generate_tone [19000%R] 1 (Some 44100%Z) = Ok samples
    /\ length samples = 44%nat
    /\ nth 0 samples 0%R = 0%R.
Proof.
  destruct (generate_tone_returns [19000%R] 1 44100)
    as (samples & Hs & Hlen).
  { vm_compute. reflexivity. }
  exists samples. split; [exact Hs|]. split.
  - rewrite Hlen. reflexivity.
  - exact (tone_starts_at_zero _ _ _ _ Hs).
Defined.

(** X19: the order of the two frequencies of a chord does not matter:
    [generate_tone [f; g]] and [generate_tone [g; f]] are the same
    buffer. *)
Theorem chord_order_is_irrelevant :
  forall f g duration_ms sample_rate,
    Tone.generate_tone [f; g] duration_ms sample_rate
    = Tone.generate_tone [g; f] duration_ms sample_rate.
Proof.
  intros f g duration_ms sample_rate.
  unfold Tone.generate_tone, Tone.unfaded_tone. cbv zeta.
  destruct (Tone.linspace 0 (IZR duration_ms / 1000)
              (Tone.num_samples_of duration_ms
                 match sample_rate with Some r => r | None => 44100%Z end))
    as [t|e]; cbn [Py.bind]; [|reflexivity].
  rewrite summed_signal_swap. reflexivity.
Qed.

(** X20: the integer model of the two truncations is what binary64
    computes. For every sample rate from 0 to 100000 Hz,
    [int(sample_rate * 0.01)] is [sample_rate // 100] although 0.01 is
    not a binary64 number; and for the common sample rates and every
    duration from 0 to 2000 ms, [int(sample_rate * duration_ms / 1000)]
    is [sample_rate * duration_ms // 1000]. *)
Theorem truncations_agree_with_binary64 :
  (forall sample_rate,
     (0 <= sample_rate <= 100000)%Z ->
     Binary64.truncates_to (Binary64.fade_product sample_rate)
       (sample_rate / 100) = true)
  /\ (forall sample_rate duration_ms,
        In sample_rate Binary64.common_rates ->
        (0 <= duration_ms <= 2000)%Z ->
        Binary64.truncates_to
          (Binary64.samples_quotient duration_ms sample_rate)
          (sample_rate * duration_ms / 1000) = true).
Proof.
  split.
  - intros r Hr.
    pose proof (all_from_spec _ _ 0%Z r fade_samples_agrees_with_binary64
                  ltac:(lia)) as H.
    cbv beta in H. unfold Tone.fade_samples_of in H.
    rewrite Z.quot_div_nonneg in H by lia. exact H.
  - intros r d Hin Hd.
    pose proof (proj1 (forallb_forall _ _) num_samples_agrees_with_binary64
                  r Hin) as H.
    cbv beta in H.
    pose proof (all_from_spec _ _ 0%Z d H ltac:(lia)) as H'.
    cbv beta in H'. unfold Tone.num_samples_of in H'.
    assert (Hr : (0 <= r)%Z).
    { unfold Binary64.common_rates in Hin. cbn [In] in Hin.
      repeat (destruct Hin as [<-|Hin]; [lia|]). contradiction. }
    rewrite Z.quot_div_nonneg in H' by nia. exact H'.
Qed.

Lemma truncations_agree_with_binary64_witness :
  (0 <= 44100 <= 100000)%Z
  /\ Binary64.truncates_to (Binary64.fade_product 44100) 441 = true
  /\ Binary64.truncates_to (Binary64.samples_quotient 7 44100) 308 = true.
Proof.
  assert (H1 : (0 <= 44100 <= 100000)%Z) by lia.
  assert (H2 : In 44100%Z Binary64.common_rates)
    by (vm_compute; tauto).
  assert (H3 : (0 <= 7 <= 2000)%Z) by lia.
  split; [exact H1|]. split.
  - exact (proj1 truncations_agree_with_binary64 44100%Z H1).
  - exact (proj2 truncations_agree_with_binary64 44100%Z 7%Z H2 H3).
Defined.
